(** * Sales time-series analysis: a shallow embedding of [Sales_Analysis.py]

    The script resamples a time-indexed sales column at four calendar
    frequencies, runs a classical seasonal decomposition on each resampled
    series, lists the lowest and highest valued observations and prints a
    narrative selected by the title of the pass.

    Sales figures are exact rationals ([Q], compared with [==]); a missing
    value (pandas' NaN) is [None].  The one product the script takes with a
    float of its own, [len(sorted_series) * threshold], is also modelled in
    binary64 arithmetic ([PyFloat]).  Timestamps are minutes since
    1970-01-01 00:00, the granularity of the input format
    ["%d-%m-%Y %H:%M"]. *)

From Stdlib Require Import String Ascii.
From Stdlib Require Import List ZArith QArith Qabs Qround Qpower Qreduction.
From Stdlib Require Import Lia Bool.
From Stdlib Require SpecFloat.
From Stdlib Require Import Permutation Sorted.
Import ListNotations.

Local Open Scope Z_scope.

(** ** Python values used by the script *)

Module Py.

(** [int(x)] on a number: truncation toward zero. *)
Definition int (q : Q) : Z := Z.quot (Qnum q) (Zpos (Qden q)).

(** A slice bound [k] resolved against a sequence of length [n]: a negative
    bound counts from the end, and every bound is clamped to [0..n]. *)
Definition slice_index (n : nat) (k : Z) : nat :=
  if k <? 0 then Z.to_nat (Z.max 0 (Z.of_nat n + k))
  else Nat.min n (Z.to_nat k).

(** [l[:k]] *)
Definition slice_to {A : Type} (l : list A) (k : Z) : list A :=
  firstn (slice_index (length l) k) l.

(** [l[k:]] *)
Definition slice_from {A : Type} (l : list A) (k : Z) : list A :=
  skipn (slice_index (length l) k) l.

(** [needle in hay] on strings. *)
Fixpoint contains (needle hay : string) : bool :=
  String.prefix needle hay
  || match hay with
     | EmptyString => false
     | String _ rest => contains needle rest
     end.

(** [s.replace(' ', '_')] *)
Fixpoint replace_space (s : string) : string :=
  match s with
  | EmptyString => EmptyString
  | String c rest =>
      String (if Ascii.eqb c " "%char then "_"%char else c) (replace_space rest)
  end.

(** [s.lower()] on ASCII text. *)
Definition lower_char (c : ascii) : ascii :=
  let n := nat_of_ascii c in
  if (65 <=? n)%nat && (n <=? 90)%nat then ascii_of_nat (n + 32) else c.

Fixpoint lower (s : string) : string :=
  match s with
  | EmptyString => EmptyString
  | String c rest => String (lower_char c) (lower rest)
  end.

End Py.

(** ** Series *)

Definition Timestamp := Z.

(** One labelled observation of a pandas [Series]. *)
Definition Point : Type := Timestamp * Q.

(** A component that can be missing at some labels. *)
Definition NaPoint : Type := Timestamp * option Q.

(** Resampling frequencies used by [analyze_data]: ['H'], ['D'], ['W'], ['M']. *)
Inductive Freq : Type := FreqH | FreqD | FreqW | FreqM.

(** The ['sales'] column of a frame, with the [freq] attribute of its index. *)
Record Series : Type := mkSeries {
  freq : option Freq;
  points : list Point
}.

Definition len (s : Series) : nat := length (points s).

(** Exceptions the modelled code can raise. *)
Inductive Error : Type :=
| ValueError (msg : string)
| OverflowError (msg : string)
| ZeroDivisionError (msg : string).

Definition Result (A : Type) : Type := (Error + A)%type.

Definition bind {A B : Type} (m : Result A) (k : A -> Result B) : Result B :=
  match m with
  | inl e => inl e
  | inr a => k a
  end.

Notation "x <- m ;; k" := (bind m (fun x => k))
  (at level 61, m at next level, right associativity).

(** ** Python floats *)

Module PyFloat.

Local Open Scope Q_scope.

(** A Python [float] is an IEEE 754 binary64 number: a finite value (a
    mantissa below 2^53 at an exponent from -1074 to 971), an infinity or a
    NaN.  A finite float is given by its value; the sign of a zero is left
    out, since neither [int] nor a slice bound sees it. *)
Inductive float : Type :=
| Finite (q : Q)
| Infinity (negative : bool)
| NaN.

(** Floor of the binary logarithm of a positive number. *)
Definition ilog2 (x : Q) : Z :=
  let d := (Z.log2 (Qnum x) - Z.log2 (Zpos (Qden x)))%Z in
  if Qle_bool (2 ^ d) x then d else (d - 1)%Z.

(** The nearest integer, a tie going to the even one. *)
Definition round_half_even (x : Q) : Z :=
  let f := Qfloor x in
  match Qcompare (x - inject_Z f) (1 # 2) with
  | Lt => f
  | Eq => if Z.even f then f else (f + 1)%Z
  | Gt => (f + 1)%Z
  end.

(** The exponent of the last mantissa bit of a positive number: 53 bits
    from the leading one, and never below the subnormal exponent. *)
Definition exponent (x : Q) : Z := Z.max (ilog2 x - 52) (-1074).

(** A positive number rounded to 53 bits, the exponent unbounded above. *)
Definition round_magnitude (x : Q) : Q :=
  let e := exponent x in
  Qred (inject_Z (round_half_even (x / 2 ^ e)) * 2 ^ e).

(** The float nearest to [x], ties to even; a magnitude that rounds to
    2^1024 or more overflows to an infinity. *)
Definition round (x : Q) : float :=
  let x := Qred x in
  match Qcompare x 0 with
  | Eq => Finite 0
  | Gt => let a := round_magnitude x in
          if Qle_bool (2 ^ 1024) a then Infinity false else Finite a
  | Lt => let a := round_magnitude (- x) in
          if Qle_bool (2 ^ 1024) a then Infinity true else Finite (- a)
  end.

(** The conversion of the [int] operand of [n * x]: the nearest float, or
    an error when there is none. *)
Definition of_int (n : Z) : Result float :=
  match round (inject_Z n) with
  | Finite q => inr (Finite q)
  | _ => inl (OverflowError "int too large to convert to float")
  end.

(** [a * b] on two floats: the exact product rounded; an overflow gives an
    infinity without raising. *)
Definition mul (a b : float) : float :=
  match a, b with
  | NaN, _ | _, NaN => NaN
  | Finite x, Finite y => round (x * y)
  | Infinity s, Finite y | Finite y, Infinity s =>
      match Qcompare y 0 with
      | Eq => NaN
      | Gt => Infinity s
      | Lt => Infinity (negb s)
      end
  | Infinity s, Infinity t => Infinity (xorb s t)
  end.

(** [int(x)] on a float: truncation toward zero. *)
Definition int (x : float) : Result Z :=
  match x with
  | Finite q => inr (Py.int q)
  | Infinity _ => inl (OverflowError "cannot convert float infinity to integer")
  | NaN => inl (ValueError "cannot convert float NaN to integer")
  end.

End PyFloat.

(** The binary64 product of the IEEE 754 specification that comes with the
    standard library ([SpecFloat]), on two floats given by mantissa and
    exponent; [PyFloat.mul] is compared with it on sample operands. *)
Definition reference_value (f : SpecFloat.spec_float) : PyFloat.float :=
  match f with
  | SpecFloat.S754_zero _ => PyFloat.Finite 0
  | SpecFloat.S754_infinity s => PyFloat.Infinity s
  | SpecFloat.S754_nan => PyFloat.NaN
  | SpecFloat.S754_finite s m e =>
      let a := Qred (inject_Z (Zpos m) * 2 ^ e)%Q in
      PyFloat.Finite (if s then (- a)%Q else a)
  end.

Definition reference_mul (m1 e1 m2 e2 : Z) : PyFloat.float :=
  reference_value
    (SpecFloat.SFmul 53 1024
       (SpecFloat.binary_normalize 53 1024 m1 e1 false)
       (SpecFloat.binary_normalize 53 1024 m2 e2 false)).

Definition model_mul (m1 e1 m2 e2 : Z) : PyFloat.float :=
  PyFloat.mul (PyFloat.Finite (inject_Z m1 * 2 ^ e1)%Q)
              (PyFloat.Finite (inject_Z m2 * 2 ^ e2)%Q).

(** ** Low and high sales: [identify_low_high_sales] *)

(** Modelled from the spec: [Series.sort_values()] belongs to pandas, which
    the script imports; section 4.3 describes it as an ascending sort by
    value that keeps equal values in their original order.  This is an
    insertion sort with that behaviour. *)
Fixpoint insert_by_value (x : Point) (l : list Point) : list Point :=
  match l with
  | [] => [x]
  | y :: l' =>
      if Qle_bool (snd x) (snd y) then x :: y :: l'
      else y :: insert_by_value x l'
  end.

Fixpoint sort_values (l : list Point) : list Point :=
  match l with
  | [] => []
  | x :: l' => insert_by_value x (sort_values l')
  end.

(** The function on an exact [threshold]: the product with the length is
    taken without rounding, as Python takes it for an [int] or a [Fraction]
    and, when nothing is lost in rounding, for a [float]; with the default
    0.25 that is the case on every series of fewer than 2^53 points. *)
Definition identify_low_high_sales (series : list Point) (threshold : Q)
  : list Point * list Point :=
  let sorted_series := sort_values series in
  let k := Py.int (inject_Z (Z.of_nat (length sorted_series)) * threshold) in
  let low_sales := Py.slice_to sorted_series k in
  let high_sales := Py.slice_from sorted_series (- k) in
  (low_sales, high_sales).

(** The function on a [float] threshold, the type of the default argument:
    [len(sorted_series) * threshold] converts the length to a float and
    rounds the product, and [int] raises on an infinite product and on a
    NaN.  The source evaluates the product once for each slice, to the same
    value. *)
Definition identify_low_high_sales_float (series : list Point)
    (threshold : PyFloat.float) : Result (list Point * list Point) :=
  let sorted_series := sort_values series in
  n <- PyFloat.of_int (Z.of_nat (length sorted_series)) ;;
  k <- PyFloat.int (PyFloat.mul n threshold) ;;
  let low_sales := Py.slice_to sorted_series k in
  let high_sales := Py.slice_from sorted_series (- k) in
  inr (low_sales, high_sales).

(** The fraction used by [print_decomposition] (the default argument). *)
Definition default_threshold : Q := 1 # 4.

(** ** Calendar buckets *)

Module Calendar.

Definition minutes_per_hour : Z := 60.
Definition minutes_per_day : Z := 1440.

(** Day number (days since 1970-01-01) of a timestamp. *)
Definition day_of (t : Timestamp) : Z := t / minutes_per_day.

(** Proleptic Gregorian date [(year, month, day)] of a day number. *)
Definition civil_from_days (d : Z) : Z * Z * Z :=
  let z := d + 719468 in
  let era := z / 146097 in
  let doe := z - era * 146097 in
  let yoe := (doe - doe / 1460 + doe / 36524 - doe / 146096) / 365 in
  let doy := doe - (365 * yoe + yoe / 4 - yoe / 100) in
  let mp := (5 * doy + 2) / 153 in
  let day := doy - (153 * mp + 2) / 5 + 1 in
  let m := if mp <? 10 then mp + 3 else mp - 9 in
  let y := yoe + era * 400 + (if m <=? 2 then 1 else 0) in
  (y, m, day).

(** Day number of a proleptic Gregorian date. *)
Definition days_from_civil (y m d : Z) : Z :=
  let y' := if m <=? 2 then y - 1 else y in
  let era := y' / 400 in
  let yoe := y' - era * 400 in
  let doy := (153 * (if 2 <? m then m - 3 else m + 9) + 2) / 5 + d - 1 in
  let doe := yoe * 365 + yoe / 4 - yoe / 100 + doy in
  era * 146097 + doe - 719468.

(** Months counted from year 0: [12 * year + (month - 1)]. *)
Definition month_index (t : Timestamp) : Z :=
  let '(y, m, _) := civil_from_days (day_of t) in 12 * y + (m - 1).

Definition first_day_of_month (k : Z) : Z :=
  days_from_civil (k / 12) (k mod 12 + 1) 1.

End Calendar.

(** Number of the bucket a timestamp falls in.  ['H'] and ['D'] buckets start
    on the hour and at midnight; ['W'] buckets run from Monday to Sunday
    (1970-01-01 is a Thursday); ['M'] buckets are calendar months. *)
Definition bucket (f : Freq) (t : Timestamp) : Z :=
  match f with
  | FreqH => t / Calendar.minutes_per_hour
  | FreqD => Calendar.day_of t
  | FreqW => (Calendar.day_of t + 3) / 7
  | FreqM => Calendar.month_index t
  end.

(** Label pandas gives a bucket: its start for ['H'] and ['D'], the closing
    Sunday for ['W'], the last day of the month for ['M']. *)
Definition bucket_label (f : Freq) (k : Z) : Timestamp :=
  match f with
  | FreqH => Calendar.minutes_per_hour * k
  | FreqD => Calendar.minutes_per_day * k
  | FreqW => Calendar.minutes_per_day * (7 * k + 3)
  | FreqM => Calendar.minutes_per_day * (Calendar.first_day_of_month (k + 1) - 1)
  end.

(** ** Calendar arithmetic *)

(** Month number of a day of the 400-year cycle, which opens on a first of
    March: the computation of [Calendar.civil_from_days] after the cycle has
    been split off. *)
Definition month_of_cycle_day (doe : Z) : Z :=
  let yoe := (doe - doe / 1460 + doe / 36524 - doe / 146096) / 365 in
  let doy := doe - (365 * yoe + yoe / 4 - yoe / 100) in
  let mp := (5 * doy + 2) / 153 in
  let m := if mp <? 10 then mp + 3 else mp - 9 in
  12 * (yoe + (if m <=? 2 then 1 else 0)) + (m - 1).

(** [P] holds on [fuel] consecutive integers from [d]. *)
Fixpoint all_from (fuel : nat) (d : Z) (P : Z -> bool) : bool :=
  match fuel with
  | O => true
  | S fuel' => P d && all_from fuel' (d + 1) P
  end.

(** Year of a day of the cycle, and first day of a year of the cycle. *)
Definition year_of_cycle_day (doe : Z) : Z :=
  (doe - doe / 1460 + doe / 36524 - doe / 146096) / 365.

Definition year_start (y : Z) : Z := 365 * y + y / 4 - y / 100.

(** The day before the first day of month [k + 1], as told by [first_day],
    falls in month [k], as told by [month_of]. *)
Definition last_day_check (month_of first_day : Z -> Z) (k : Z) : bool :=
  month_of (Calendar.minutes_per_day * (first_day (k + 1) - 1)) =? k.

(** ** Aggregation: [resample_data] *)

Definition Qsum (l : list Q) : Q := fold_right Qplus 0%Q l.

Definition zrange (lo : Z) (n : nat) : list Z :=
  map (fun i => lo + Z.of_nat i) (seq 0 n).

Definition Zlist_min (d : Z) (l : list Z) : Z := fold_right Z.min d l.
Definition Zlist_max (d : Z) (l : list Z) : Z := fold_right Z.max d l.

(** Sum of the values whose timestamp falls in bucket [k]. *)
Definition bucket_sum (f : Freq) (rows : list Point) (k : Z) : Q :=
  Qsum (map snd (filter (fun p => bucket f (fst p) =? k) rows)).

(** Modelled from the spec: [df.resample(freq).sum()] belongs to pandas,
    which the script imports; section 4.1 describes the bucketing.  Every
    bucket from the one holding the earliest timestamp to the one holding the
    latest appears once, in time order, with the sum of the values that fall
    in it ([0] for a bucket without rows).  The grouping looks at the bucket
    of each row only, so the rows may come in any order and may repeat a
    timestamp. *)
Definition resample_sum (f : Freq) (rows : list Point) : list Point :=
  match rows with
  | [] => []
  | r :: _ =>
      let keys := map (fun p => bucket f (fst p)) rows in
      let lo := Zlist_min (bucket f (fst r)) keys in
      let hi := Zlist_max (bucket f (fst r)) keys in
      map (fun k => (bucket_label f k, bucket_sum f rows k))
          (zrange lo (Z.to_nat (hi - lo + 1)))
  end.

(** A frame with its ['sales'] column; [datetime_index] tells whether
    [df.index] is a [DatetimeIndex], [index_freq] is [df.index.freq]. *)
Record DataFrame : Type := mkFrame {
  datetime_index : bool;
  index_freq : option Freq;
  rows : list Point
}.

(** [len(df)] *)
Definition frame_len (df : DataFrame) : nat := length (rows df).

(** [df['sales']] *)
Definition sales (df : DataFrame) : Series :=
  mkSeries (index_freq df) (rows df).

Definition resample_data (df : DataFrame) (f : Freq) : Result DataFrame :=
  if negb (datetime_index df)
  then inl (ValueError "The DataFrame index must be a DatetimeIndex.")
  else inr (mkFrame true (Some f) (resample_sum f (rows df))).

(** ** Decomposition: [decompose_series] *)

Inductive Model : Type := Additive | Multiplicative.

(** The four components returned by [seasonal_decompose], on the index of the
    input.  Trend and residual can be missing. *)
Record DecomposeResult : Type := mkDecompose {
  observed : list Point;
  trend : list NaPoint;
  seasonal : list Point;
  resid : list NaPoint
}.

Local Open Scope Q_scope.

Fixpoint zip_with {A B C : Type} (f : A -> B -> C) (l1 : list A) (l2 : list B)
  : list C :=
  match l1, l2 with
  | a :: l1', b :: l2' => f a b :: zip_with f l1' l2'
  | _, _ => []
  end.

Definition Qdot (u v : list Q) : Q := Qsum (zip_with Qmult u v).

Definition Qmean (l : list Q) : Q :=
  Qsum l / inject_Z (Z.of_nat (length l)).

(** Values that are present, in order. *)
Fixpoint dropna_values (l : list (option Q)) : list Q :=
  match l with
  | [] => []
  | Some v :: l' => v :: dropna_values l'
  | None :: l' => dropna_values l'
  end.

(** [nanmean]: the mean of the values that are present. *)
Definition nanmean (l : list (option Q)) : Q := Qmean (dropna_values l).

(** [l[i::period]] *)
Definition stride {A : Type} (i period : nat) (l : list A) : list A :=
  map snd
    (filter (fun jx => (fst jx mod period =? i)%nat)
            (combine (seq 0 (length l)) l)).

(** [np.tile(l, k)] *)
Definition tile {A : Type} (l : list A) (k : nat) : list A :=
  concat (repeat l k).

Module Statsmodels.

(** Modelled from the spec: the moving-average weights of section 4.2,
    step 1.  An even period takes half weights at both ends of a window of
    [period + 1] points, an odd period a flat window of [period] points. *)
Definition filt (period : nat) : list Q :=
  let p := inject_Z (Z.of_nat period) in
  if Nat.even period
  then map (fun w => w / p) ((1 # 2) :: repeat 1 (period - 1) ++ [1 # 2])
  else repeat (1 / p) period.

(** Modelled from the spec: the weighted window sums of the moving average,
    at the positions where the whole window fits. *)
Definition convolve_valid (x w : list Q) : list Q :=
  let L := length w in
  if (L <=? length x)%nat
  then map (fun j => Qdot (rev w) (firstn L (skipn j x)))
           (seq 0 (length x - L + 1))
  else [].

(** Modelled from the spec: the centred filter, padded with missing values
    so that the result has the length of the input. *)
Definition convolution_filter (x w : list Q) : list (option Q) :=
  let L := length w in
  let trim_head := (Nat.div2 (L + 1) - 1)%nat in
  let trim_tail := (Nat.div2 (L + 1) - L mod 2)%nat in
  repeat None trim_head ++ map Some (convolve_valid x w)
    ++ repeat None trim_tail.

(** Modelled from the spec: section 4.2, step 3, the mean of the detrended
    values at each position of the period, missing values left out. *)
Definition seasonal_mean (detrended : list (option Q)) (period : nat)
  : list Q :=
  map (fun i => nanmean (stride i period detrended)) (seq 0 period).

Definition lift2 (f : Q -> Q -> Q) (a b : option Q) : option Q :=
  match a, b with
  | Some u, Some v => Some (f u v)
  | _, _ => None
  end.

(** Modelled from the spec: [seasonal_decompose] belongs to statsmodels,
    which the script imports; this is the classical decomposition of
    section 4.2.  The call rejects a series shorter than two periods and,
    under the multiplicative model, a value that is not positive.  The
    length check is the only one made on the period: a period of one is
    decomposed like any other, and a period of zero passes the check and
    fails where the number of observations is divided by it. *)
Definition seasonal_decompose (x : Series) (model : Model) (period : nat)
  : Result DecomposeResult :=
  let xs := map snd (points x) in
  let index := map fst (points x) in
  let nobs := length xs in
  if match model with
     | Multiplicative => existsb (fun v => Qle_bool v 0) xs
     | Additive => false
     end
  then inl (ValueError "Multiplicative seasonality is not appropriate for zero and negative values")
  else
  if (nobs <? 2 * period)%nat
  then inl (ValueError "x must have 2 complete cycles")
  else
  if (period =? 0)%nat
  then inl (ZeroDivisionError "integer division or modulo by zero")
  else
    let trend := convolution_filter xs (filt period) in
    let detrended :=
      match model with
      | Multiplicative => zip_with (fun v t => lift2 Qdiv (Some v) t) xs trend
      | Additive => zip_with (fun v t => lift2 Qminus (Some v) t) xs trend
      end in
    let period_averages := seasonal_mean detrended period in
    let period_averages :=
      match model with
      | Multiplicative =>
          map (fun a => a / Qmean period_averages) period_averages
      | Additive =>
          map (fun a => a - Qmean period_averages) period_averages
      end in
    let seasonal := firstn nobs (tile period_averages (nobs / period + 1)) in
    let resid :=
      match model with
      | Multiplicative =>
          zip_with (fun vs t => lift2 Qdiv (Some vs) t)
                   (zip_with Qdiv xs seasonal) trend
      | Additive =>
          zip_with (fun d s => lift2 Qminus d (Some s)) detrended seasonal
      end in
    inr (mkDecompose (points x) (combine index trend)
                     (combine index seasonal) (combine index resid)).

End Statsmodels.

(** [period=None] picks a year of days for a daily index and twelve for any
    other. *)
Definition decompose_series (series : Series) (model : Model)
    (period : option nat) : Result DecomposeResult :=
  let period :=
    match period with
    | Some p => p
    | None =>
        match freq series with
        | Some FreqD => 365%nat
        | _ => 12%nat
        end
    end in
  Statsmodels.seasonal_decompose series model period.

(** ** Reports: [print_decomposition] *)

(** The five passes of [analyze_data]. *)
Inductive Resolution : Type := Hourly | Daily | Weekly | Monthly | Seasonal.

(** Which component the narrative takes its two dates from. *)
Inductive Component : Type := TrendComponent | SeasonalComponent.

(** The narrative block of a summary: the branch taken, the component whose
    extremes it reports, the labels of the highest and lowest value and the
    [strftime] format they are printed with. *)
Record Insight : Type := mkInsight {
  template : Resolution;
  source : Component;
  peak : Timestamp;
  low : Timestamp;
  time_format : string
}.

(** What one call leaves behind: the text blocks of the summary and the
    saved figure with the four plotted components. *)
Record Report : Type := mkReport {
  heading : string;
  low_sales : list Point;
  high_sales : list Point;
  figure_file : string;
  figure : DecomposeResult;
  insight : option Insight
}.

(** [s.dropna()] *)
Fixpoint dropna (l : list NaPoint) : list Point :=
  match l with
  | [] => []
  | (t, Some v) :: l' => (t, v) :: dropna l'
  | (_, None) :: l' => dropna l'
  end.

(** First point that no later point beats. *)
Definition first_best (better : Q -> Q -> bool) (l : list Point)
  : option Point :=
  match l with
  | [] => None
  | p :: l' =>
      Some (fold_left (fun best q => if better (snd q) (snd best) then q else best)
                      l' p)
  end.

Definition Qgt_bool (a b : Q) : bool := negb (Qle_bool a b).
Definition Qlt_bool (a b : Q) : bool := negb (Qle_bool b a).

(** [s.idxmax()], [s.idxmin()]: label of the first occurrence of the largest
    (smallest) value; an empty series raises. *)
Definition idxmax (l : list Point) : Result Timestamp :=
  match first_best Qgt_bool l with
  | Some p => inr (fst p)
  | None => inl (ValueError "attempt to get argmax of an empty sequence")
  end.

Definition idxmin (l : list Point) : Result Timestamp :=
  match first_best Qlt_bool l with
  | Some p => inr (fst p)
  | None => inl (ValueError "attempt to get argmin of an empty sequence")
  end.

(** The [if]/[elif] chain on the title, in source order. *)
Definition branch_of_title (title : string) : option Resolution :=
  if Py.contains "Hourly Analysis" title then Some Hourly
  else if Py.contains "Daily Analysis" title then Some Daily
  else if Py.contains "Weekly Analysis" title then Some Weekly
  else if Py.contains "Monthly Analysis" title then Some Monthly
  else if Py.contains "Seasonal Analysis" title then Some Seasonal
  else None.

Definition branch_component (r : Resolution) : Component :=
  match r with
  | Hourly | Daily | Weekly | Monthly => TrendComponent
  | Seasonal => SeasonalComponent
  end.

Definition branch_format (r : Resolution) : string :=
  match r with
  | Hourly => "%H:%M"
  | Daily => "%A"
  | Weekly => "%Y-%m-%d"
  | Monthly => "%B"
  | Seasonal => "%B"
  end.

(** The summary as a record.  Of the plotting block (lines 56 to 81) the
    record keeps the plotted components and the name of the saved file;
    what the plotting library and the file system can raise while the
    figure is drawn and written is not modelled: the function describes a
    call whose figure was written. *)
Definition print_decomposition (result : DecomposeResult) (title : string)
  : Result Report :=
  let '(low_sales, high_sales) :=
    identify_low_high_sales (observed result) default_threshold in
  let file := (Py.lower (Py.replace_space title) ++ ".png")%string in
  let trend := dropna (trend result) in
  let seasonal := seasonal result in
  ins <-
    match branch_of_title title with
    | Some r =>
        let s :=
          match branch_component r with
          | TrendComponent => trend
          | SeasonalComponent => seasonal
          end in
        hi <- idxmax s ;;
        lo <- idxmin s ;;
        inr (Some (mkInsight r (branch_component r) hi lo (branch_format r)))
    | None => inr None
    end ;;
  inr (mkReport title low_sales high_sales file result ins).

(** ** The pipeline: [analyze_data] *)

(** One entry of [summaries]. *)
Inductive Summary : Type :=
| NotEnoughData (msg : string)
| Analysis (r : Report).

(** Constants of the five blocks of [analyze_data]. *)
Definition min_buckets (r : Resolution) : nat :=
  match r with
  | Hourly => 48
  | Daily => 14
  | Weekly => 8
  | Monthly => 24
  | Seasonal => 24
  end.

Definition period_of (r : Resolution) : nat :=
  match r with
  | Hourly => 24
  | Daily => 7
  | Weekly => 4
  | Monthly => 12
  | Seasonal => 12
  end.

Definition title_of (r : Resolution) : string :=
  match r with
  | Hourly => "Hourly Analysis"
  | Daily => "Daily Analysis"
  | Weekly => "Weekly Analysis"
  | Monthly => "Monthly Analysis"
  | Seasonal => "Seasonal Analysis"
  end.

Definition not_enough (r : Resolution) : string :=
  match r with
  | Hourly => "Not enough data for hourly analysis"
  | Daily => "Not enough data for daily analysis"
  | Weekly => "Not enough data for weekly analysis"
  | Monthly => "Not enough data for monthly analysis"
  | Seasonal => "Not enough data for seasonal analysis"
  end.

(** The block repeated for each resolution: gate on the number of buckets,
    then decompose with the fixed period and summarise. *)
Definition analysis_pass (r : Resolution) (data : DataFrame) : Result Summary :=
  if (min_buckets r <=? frame_len data)%nat
  then
    d <- decompose_series (sales data) Additive (Some (period_of r)) ;;
    rep <- print_decomposition d (title_of r) ;;
    inr (Analysis rep)
  else inr (NotEnoughData (not_enough r)).

Definition analyze_data (df : DataFrame) : Result (list Summary) :=
  hourly_data <- resample_data df FreqH ;;
  s1 <- analysis_pass Hourly hourly_data ;;
  daily_data <- resample_data df FreqD ;;
  s2 <- analysis_pass Daily daily_data ;;
  weekly_data <- resample_data df FreqW ;;
  s3 <- analysis_pass Weekly weekly_data ;;
  monthly_data <- resample_data df FreqM ;;
  s4 <- analysis_pass Monthly monthly_data ;;
  s5 <- analysis_pass Seasonal monthly_data ;;
  inr [s1; s2; s3; s4; s5].

(** ** Derived notions used in the statements *)

(** The frame [resample_data] returns on a datetime index. *)
Definition resampled (df : DataFrame) (f : Freq) : DataFrame :=
  mkFrame true (Some f) (resample_sum f (rows df)).

(** The series whose extremes a branch reports. *)
Definition narrated (res : DecomposeResult) (c : Component) : list Point :=
  match c with
  | TrendComponent => dropna (trend res)
  | SeasonalComponent => seasonal res
  end.

(** The count the two slices are cut with. *)
Definition cut (series : list Point) (threshold : Q) : Z :=
  Py.int (inject_Z (Z.of_nat (length series)) * threshold).

(** The same count as Python evaluates it on a float threshold. *)
Definition cut_float (series : list Point) (threshold : PyFloat.float)
  : Result Z :=
  n <- PyFloat.of_int (Z.of_nat (length series)) ;;
  PyFloat.int (PyFloat.mul n threshold).

(** The value of a positive float that is not an infinity: a mantissa below
    2^53 at an exponent of at least -1074. *)
Definition representable (y : Q) : Prop :=
  exists M E : Z,
    (0 < M < 2 ^ 53)%Z /\ (-1074 <= E)%Z /\ y == inject_Z M * 2 ^ E.

Definition value_le (p q : Point) : Prop := snd p <= snd q.

(** Timestamps in strictly increasing order (so without repeats). *)
Fixpoint strictly_increasing (l : list Timestamp) : bool :=
  match l with
  | [] => true
  | t :: l' =>
      match l' with
      | [] => true
      | u :: _ => (t <? u)%Z && strictly_increasing l'
      end
  end.

(** The period a call works with. *)
Definition effective_period (series : Series) (period : option nat) : nat :=
  match period with
  | Some p => p
  | None => match freq series with
            | Some FreqD => 365%nat
            | _ => 12%nat
            end
  end.

(** [needle] occurs in [hay]. *)
Definition occurs (needle hay : string) : Prop :=
  exists pre post, hay = (pre ++ needle ++ post)%string.

(** Neither a space nor an upper-case ASCII letter. *)
Definition plain_char (c : ascii) : bool :=
  let n := nat_of_ascii c in
  negb (n =? 32)%nat && negb ((65 <=? n)%nat && (n <=? 90)%nat).

Fixpoint string_forall (P : ascii -> bool) (s : string) : bool :=
  match s with
  | EmptyString => true
  | String c rest => P c && string_forall P rest
  end.

(** Whether an entry of the run is a report. *)
Definition is_analysis (s : Summary) : bool :=
  match s with
  | Analysis _ => true
  | NotEnoughData _ => false
  end.

(** An entry as the pass of resolution [r] writes it: its own "not enough
    data" line, or a report under its own title with its own narrative. *)
Definition entry_for (r : Resolution) (s : Summary) : Prop :=
  match s with
  | NotEnoughData msg => msg = not_enough r
  | Analysis rep =>
      heading rep = title_of r /\ option_map template (insight rep) = Some r
  end.

(** A value that is missing or equal to [c]. *)
Definition missing_or (c : Q) (o : option Q) : Prop :=
  match o with
  | Some v => v == c
  | None => True
  end.

(** ** Sample inputs *)

Definition three_sales : list Point := [(0%Z, 3); (60%Z, 1); (120%Z, 2)].

(** The floats written [1/3] and [1e308] in Python. *)
Definition float_third : PyFloat.float :=
  Eval vm_compute in PyFloat.round (1 # 3).

Definition float_1e308 : PyFloat.float :=
  Eval vm_compute in PyFloat.round (inject_Z (10 ^ 308)).

(** Two rows out of time order, and two rows at one timestamp. *)
Definition unordered_frame : DataFrame :=
  mkFrame true None [(90%Z, 1); (30%Z, 2)].

Definition duplicate_frame : DataFrame :=
  mkFrame true None [(30%Z, 1); (30%Z, 2)].

Definition two_weeks : Series :=
  mkSeries (Some FreqD)
    (map (fun i => ((1440 * Z.of_nat i)%Z, inject_Z (Z.of_nat (i * i mod 7 + i))))
         (seq 0 14)).

Definition two_weeks_frame : DataFrame :=
  mkFrame true (Some FreqD) (points two_weeks).

(** A result with trend and seasonal extremes at different labels. *)
Definition sample_result : DecomposeResult :=
  mkDecompose
    [(0%Z, 9); (1440%Z, 4); (2880%Z, 6); (4320%Z, 8)]
    [(0%Z, None); (1440%Z, Some 5); (2880%Z, Some 7); (4320%Z, None)]
    [(0%Z, 2); (1440%Z, -1 # 1); (2880%Z, -2 # 1); (4320%Z, 1)]
    [(0%Z, None); (1440%Z, Some 0); (2880%Z, Some 1); (4320%Z, None)].

(** Two sales thirteen calendar days apart, and two sales two years apart. *)
Definition thirteen_days_frame : DataFrame :=
  mkFrame true None [(45%Z, 1); (17310%Z, 2)].

Definition two_years_frame : DataFrame :=
  mkFrame true None [(45%Z, 1); (1008000%Z, 2)].

(** ** More sample inputs *)

(** A frame without rows. *)
Definition empty_frame : DataFrame := mkFrame true None [].

Definition eight_sales : list Point :=
  [(0%Z, 3); (1%Z, 1); (2%Z, 2); (3%Z, 1); (4%Z, 7); (5%Z, 0); (6%Z, 0);
   (7%Z, 9)].

(** A result whose trend is missing everywhere. *)
Definition trendless_result : DecomposeResult :=
  mkDecompose
    [(0%Z, 9); (1440%Z, 4)]
    [(0%Z, None); (1440%Z, None)]
    [(0%Z, 1); (1440%Z, -1 # 1)]
    [(0%Z, None); (1440%Z, None)].

(** The additive decomposition of [two_weeks] with period 7. *)
Definition sample_decomposition : DecomposeResult :=
  Eval vm_compute in
    match decompose_series two_weeks Additive (Some 7%nat) with
    | inr d => d
    | inl _ => mkDecompose [] [] [] []
    end.

(** The daily report of [two_weeks_frame]. *)
Definition two_weeks_report : Report :=
  Eval vm_compute in
    match analysis_pass Daily two_weeks_frame with
    | inr (Analysis rep) => rep
    | _ => mkReport "" [] [] "" (mkDecompose [] [] [] []) None
    end.

(** Two weeks of the same sales figure. *)
Definition flat_two_weeks : Series :=
  mkSeries (Some FreqD)
    (map (fun i => ((1440 * Z.of_nat i)%Z, 5)) (seq 0 14)).

(** The additive decomposition of [flat_two_weeks] with period 7. *)
Definition flat_decomposition : DecomposeResult :=
  Eval vm_compute in
    match decompose_series flat_two_weeks Additive (Some 7%nat) with
    | inr d => d
    | inl _ => mkDecompose [] [] [] []
    end.

(** * Properties *)

(** ** The definitions on small inputs *)

(** Day 19782 is 29 February 2024, the next day 1 March; the day before the
    epoch is 31 December 1969. *)
Example civil_from_days_leap_day :
  (Calendar.civil_from_days 19782 = (2024, 2, 29))%Z /\
  (Calendar.civil_from_days 19783 = (2024, 3, 1))%Z /\
  (Calendar.civil_from_days (-1) = (1969, 12, 31))%Z /\
  (Calendar.days_from_civil 2024 2 29 = 19782)%Z.
Proof. repeat split. Qed.

(** A Thursday morning and the following Sunday evening share a weekly
    bucket, labelled by that Sunday; the Monday after opens the next one.
    A sale on 29 February 2024 is labelled with that day by the monthly
    resampling. *)
Example weekly_and_monthly_buckets :
  (bucket FreqW 600 = bucket FreqW (3 * 1440 + 1380))%Z /\
  (bucket_label FreqW (bucket FreqW 600) = 3 * 1440)%Z /\
  (bucket FreqW (4 * 1440) = bucket FreqW 600 + 1)%Z /\
  (bucket_label FreqM (bucket FreqM (19775 * 1440)) = 19782 * 1440)%Z.
Proof. repeat split. Qed.

(** Three sales over four days: the two of the first day are added up and
    the days without sales are kept with a zero. *)
Example resample_sum_daily :
  resample_sum FreqD [(4325%Z, 2); (0%Z, 1); (7%Z, 5 # 2)]
  = [(0%Z, 7 # 2); (1440%Z, 0); (2880%Z, 0); (4320%Z, 2)].
Proof. reflexivity. Qed.

(** Eight sales with a quarter threshold: the two lowest and the two highest,
    equal values in their original order. *)
Example identify_low_high_sales_eight :
  identify_low_high_sales
    [(0%Z, 3); (1%Z, 1); (2%Z, 2); (3%Z, 1); (4%Z, 7); (5%Z, 0); (6%Z, 0);
     (7%Z, 9)] (1 # 4)
  = ([(5%Z, 0); (6%Z, 0)], [(4%Z, 7); (7%Z, 9)]).
Proof. reflexivity. Qed.

(** Without a period a daily series is decomposed with period 365, which two
    weeks of data cannot hold. *)
Example decompose_series_default_period :
  decompose_series two_weeks Additive None
  = inl (ValueError "x must have 2 complete cycles").
Proof. reflexivity. Qed.

(** The values of [two_weeks] rise by seven every week: its trend with
    period 7 is missing on the first and last three days and equals 5 on the
    fourth day and 12 on the eleventh. *)
Example decompose_series_two_weeks_trend :
  match decompose_series two_weeks Additive (Some 7%nat) with
  | inr d =>
      map (fun p => match snd p with
                    | Some t => Some (Qred t)
                    | None => None
                    end) (trend d)
  | inl _ => []
  end
  = [None; None; None; Some 5; Some 6; Some 7; Some 8; Some 9; Some 10;
     Some 11; Some 12; None; None; None].
Proof. vm_compute. reflexivity. Qed.

(** ** Low and high sales *)

Section Extremes.

Lemma insert_by_value_length (x : Point) (l : list Point) :
  length (insert_by_value x l) = S (length l).
Proof.
  induction l as [|y l IH]; simpl; [reflexivity|].
  destruct (Qle_bool (snd x) (snd y)); simpl; congruence.
Qed.

Lemma sort_values_length (l : list Point) :
  length (sort_values l) = length l.
Proof.
  induction l as [|x l IH]; simpl; [reflexivity|].
  rewrite insert_by_value_length; congruence.
Qed.

Lemma insert_by_value_perm (x : Point) (l : list Point) :
  Permutation (x :: l) (insert_by_value x l).
Proof.
  induction l as [|y l IH]; simpl; [apply Permutation_refl|].
  destruct (Qle_bool (snd x) (snd y)); [apply Permutation_refl|].
  eapply perm_trans; [apply perm_swap|]. now apply perm_skip.
Qed.

Lemma sort_values_perm (l : list Point) : Permutation l (sort_values l).
Proof.
  induction l as [|x l IH]; simpl; [constructor|].
  eapply perm_trans; [apply perm_skip, IH|apply insert_by_value_perm].
Qed.

Lemma insert_by_value_sorted (x : Point) (l : list Point) :
  LocallySorted value_le l -> LocallySorted value_le (insert_by_value x l).
Proof.
  induction 1 as [|y|y z l Hs IH Hyz]; simpl.
  - constructor.
  - destruct (Qle_bool (snd x) (snd y)) eqn:E.
    + constructor; [constructor|]. now apply Qle_bool_iff.
    + constructor; [constructor|]. unfold value_le.
      apply Qlt_le_weak, Qnot_le_lt. intro H.
      apply Qle_bool_iff in H. congruence.
  - destruct (Qle_bool (snd x) (snd y)) eqn:E.
    + constructor; [now constructor|]. now apply Qle_bool_iff.
    + simpl in IH. destruct (Qle_bool (snd x) (snd z)) eqn:E'.
      * constructor; [exact IH|]. unfold value_le.
        apply Qlt_le_weak, Qnot_le_lt. intro H.
        apply Qle_bool_iff in H. congruence.
      * constructor; assumption.
Qed.

Lemma sort_values_sorted (l : list Point) :
  LocallySorted value_le (sort_values l).
Proof.
  induction l as [|x l IH]; simpl; [constructor|].
  now apply insert_by_value_sorted.
Qed.

(** The sort is stable: the points of any given value keep their order. *)
Lemma insert_by_value_filter (v : Q) (x : Point) (l : list Point) :
  filter (fun p => Qeq_bool (snd p) v) (insert_by_value x l)
  = filter (fun p => Qeq_bool (snd p) v) (x :: l).
Proof.
  induction l as [|y l IH]; [reflexivity|]. cbn [insert_by_value].
  destruct (Qle_bool (snd x) (snd y)) eqn:E; [reflexivity|].
  cbn [filter] in *. rewrite IH.
  destruct (Qeq_bool (snd x) v) eqn:Ex, (Qeq_bool (snd y) v) eqn:Ey;
    try reflexivity.
  apply Qeq_bool_iff in Ex, Ey.
  assert (H : Qle_bool (snd x) (snd y) = true).
  { apply Qle_bool_iff. rewrite Ex, Ey. apply Qle_refl. }
  congruence.
Qed.

Lemma sort_values_stable (v : Q) (l : list Point) :
  filter (fun p => Qeq_bool (snd p) v) (sort_values l)
  = filter (fun p => Qeq_bool (snd p) v) l.
Proof.
  induction l as [|x l IH]; [reflexivity|]. cbn [sort_values].
  rewrite insert_by_value_filter. cbn [filter]. now rewrite IH.
Qed.

(** [int] of a number in [[0, 1)] is [0]. *)
Lemma int_small (q : Q) : 0 <= q -> q < 1 -> Py.int q = 0%Z.
Proof.
  destruct q as [n d]. unfold Qle, Qlt, Py.int. simpl. intros H0 H1.
  apply Z.quot_small. lia.
Qed.

(** For a non-negative number [int] is the floor. *)
Lemma int_floor (q : Q) : 0 <= q -> Py.int q = Qfloor q.
Proof.
  destruct q as [n d]. unfold Qle, Py.int, Qfloor. simpl. intros H0.
  apply Z.quot_div_nonneg; lia.
Qed.

Lemma slice_to_zero {A : Type} (l : list A) : Py.slice_to l 0 = [].
Proof. unfold Py.slice_to, Py.slice_index. simpl. now rewrite Nat.min_0_r. Qed.

Lemma slice_from_zero {A : Type} (l : list A) : Py.slice_from l 0 = l.
Proof. unfold Py.slice_from, Py.slice_index. simpl. now rewrite Nat.min_0_r. Qed.

Lemma identify_low_high_sales_cut (series : list Point) (threshold : Q) :
  identify_low_high_sales series threshold =
    (Py.slice_to (sort_values series) (cut series threshold),
     Py.slice_from (sort_values series) (- cut series threshold)).
Proof.
  unfold identify_low_high_sales, cut. now rewrite sort_values_length.
Qed.

(** With a cut of zero the low slice is empty and the high slice is the
    whole sorted series. *)
Lemma identify_cut_zero (series : list Point) (threshold : Q) :
  cut series threshold = 0%Z ->
  identify_low_high_sales series threshold = ([], sort_values series).
Proof.
  intros Hk. rewrite identify_low_high_sales_cut, Hk. simpl.
  now rewrite slice_to_zero, slice_from_zero.
Qed.

(** With a cut [k] between [1] and [n] the slices are the first [k] and the
    last [k] points of the sorted series. *)
Lemma identify_cut_pos (series : list Point) (threshold : Q) (k : nat) :
  cut series threshold = Z.of_nat k ->
  (1 <= k <= length series)%nat ->
  identify_low_high_sales series threshold =
    (firstn k (sort_values series),
     skipn (length series - k) (sort_values series)).
Proof.
  intros Hk [H1 Hn]. rewrite identify_low_high_sales_cut, Hk.
  unfold Py.slice_to, Py.slice_from, Py.slice_index.
  rewrite sort_values_length.
  destruct (Z.ltb_spec (Z.of_nat k) 0); [lia|].
  destruct (Z.ltb_spec (- Z.of_nat k) 0); [|lia].
  f_equal; f_equal; lia.
Qed.

(** C5, at a series of three points with threshold 1/4: floor(threshold * n)
    is zero, the low slice is empty as the claim says, but the high slice
    holds all three points instead of the last zero. *)
Theorem high_sales_of_three_points :
  Qfloor (inject_Z (Z.of_nat (length three_sales)) * (1 # 4)) = 0%Z /\
  identify_low_high_sales three_sales (1 # 4)
  = ([], [(60%Z, 1); (120%Z, 2); (0%Z, 3)]) /\
  length (snd (identify_low_high_sales three_sales (1 # 4))) = 3%nat.
Proof. repeat split. Qed.

(** Whenever floor(threshold * n) is at least one, the slices are the first
    and the last floor(threshold * n) points of the sorted series. *)
Lemma identify_low_high_sales_floor (series : list Point) (threshold : Q) :
  0 < threshold -> threshold <= 1 ->
  (1 <= Qfloor (inject_Z (Z.of_nat (length series)) * threshold))%Z ->
  let k := Z.to_nat (Qfloor (inject_Z (Z.of_nat (length series)) * threshold)) in
  identify_low_high_sales series threshold
  = (firstn k (sort_values series),
     skipn (length series - k) (sort_values series)) /\
  length (fst (identify_low_high_sales series threshold)) = k /\
  length (snd (identify_low_high_sales series threshold)) = k.
Proof.
  intros Ht Ht1 Hk k.
  set (n := inject_Z (Z.of_nat (length series))) in *.
  assert (Hn0 : 0 <= n).
  { unfold n. change 0 with (inject_Z 0). rewrite <- Zle_Qle. lia. }
  assert (Hx0 : 0 <= n * threshold).
  { apply Qmult_le_0_compat; [exact Hn0|now apply Qlt_le_weak]. }
  assert (Hxn : n * threshold <= n).
  { rewrite <- (Qmult_1_r n) at 2.
    rewrite (Qmult_comm n threshold), (Qmult_comm n 1).
    apply Qmult_le_compat_r; assumption. }
  assert (Hkn : (k <= length series)%nat).
  { assert (H : (Qfloor (n * threshold) <= Qfloor n)%Z)
      by now apply Qfloor_resp_le.
    unfold n in H at 2. rewrite Qfloor_Z in H. unfold k. lia. }
  assert (Hcut : cut series threshold = Z.of_nat k).
  { unfold cut. fold n. rewrite int_floor by exact Hx0. unfold k. lia. }
  assert (H1k : (1 <= k)%nat) by (unfold k; lia).
  rewrite (identify_cut_pos series threshold k Hcut (conj H1k Hkn)). simpl.
  split; [reflexivity|].
  rewrite length_firstn, length_skipn, sort_values_length. lia.
Qed.

(** A quarter of a hundred points: twenty-five in each slice. *)
Lemma identify_low_high_sales_hundred (series : list Point) :
  length series = 100%nat ->
  length (fst (identify_low_high_sales series default_threshold)) = 25%nat /\
  length (snd (identify_low_high_sales series default_threshold)) = 25%nat.
Proof.
  intros Hn.
  assert (Hk : (1 <= Qfloor (inject_Z (Z.of_nat (length series))
                             * default_threshold))%Z)
    by (rewrite Hn; vm_compute; discriminate).
  assert (H0 : 0 < default_threshold) by reflexivity.
  assert (H1 : default_threshold <= 1) by (vm_compute; discriminate).
  pose proof (identify_low_high_sales_floor series default_threshold H0 H1 Hk)
    as H.
  cbv zeta in H. destruct H as (_ & Hl & Hh).
  rewrite Hn in Hl, Hh. exact (conj Hl Hh).
Qed.

End Extremes.

(** ** Aggregation *)

Section Aggregation.

Variable f : Freq.

Lemma Qsum_map_ext {A : Type} (g h : A -> Q) (ks : list A) :
  (forall k, g k == h k) -> Qsum (map g ks) == Qsum (map h ks).
Proof.
  intros E. induction ks as [|k ks IH]; simpl; [reflexivity|].
  now rewrite IH, E.
Qed.

Lemma Qsum_map_plus {A : Type} (g h : A -> Q) (ks : list A) :
  Qsum (map (fun k => g k + h k) ks) == Qsum (map g ks) + Qsum (map h ks).
Proof.
  induction ks as [|k ks IH]; simpl; [reflexivity|]. rewrite IH. ring.
Qed.

(** A value credited to one bucket is counted once over a duplicate-free
    list of buckets that holds it. *)
Lemma Qsum_single_bucket (a : Z) (v : Q) (ks : list Z) :
  NoDup ks -> In a ks ->
  Qsum (map (fun k => if (a =? k)%Z then v else 0) ks) == v.
Proof.
  induction 1 as [|k ks Hk Hnd IH]; simpl; [contradiction|].
  intros [->|Hin].
  - rewrite Z.eqb_refl.
    assert (E : Qsum (map (fun k0 => if (a =? k0)%Z then v else 0) ks) == 0).
    { clear IH Hnd. induction ks as [|k' ks IH]; simpl; [reflexivity|].
      destruct (Z.eqb_spec a k') as [->|_].
      - exfalso. apply Hk. now left.
      - rewrite IH; [ring|]. intro H. apply Hk. now right. }
    rewrite E. ring.
  - destruct (Z.eqb_spec a k) as [->|_]; [contradiction|].
    rewrite (IH Hin). ring.
Qed.

Lemma bucket_sum_cons (p : Point) (l : list Point) (k : Z) :
  bucket_sum f (p :: l) k
  == (if (bucket f (fst p) =? k)%Z then snd p else 0) + bucket_sum f l k.
Proof.
  unfold bucket_sum. simpl.
  destruct (bucket f (fst p) =? k)%Z; simpl; ring.
Qed.

(** Bucket sums over any duplicate-free list of buckets that covers the rows
    add up to the total of the rows. *)
Lemma bucket_sums_total (l : list Point) (ks : list Z) :
  NoDup ks ->
  (forall p, In p l -> In (bucket f (fst p)) ks) ->
  Qsum (map (bucket_sum f l) ks) == Qsum (map snd l).
Proof.
  intros Hnd. induction l as [|p l IH]; intros Hcov.
  - clear Hnd Hcov. induction ks as [|k ks IHk]; [reflexivity|].
    change (bucket_sum f [] k + Qsum (map (bucket_sum f []) ks) == 0).
    rewrite IHk. reflexivity.
  - rewrite (Qsum_map_ext _ _ ks (bucket_sum_cons p l)).
    rewrite Qsum_map_plus, Qsum_single_bucket, IH; simpl.
    + reflexivity.
    + intros q Hq. apply Hcov. now right.
    + exact Hnd.
    + apply Hcov. now left.
Qed.

Lemma zrange_NoDup (lo : Z) (n : nat) : NoDup (zrange lo n).
Proof.
  unfold zrange. apply Finite.Injective_map_NoDup; [|apply seq_NoDup].
  intros a b. lia.
Qed.

Lemma zrange_In (lo : Z) (n : nat) (k : Z) :
  (lo <= k < lo + Z.of_nat n)%Z -> In k (zrange lo n).
Proof.
  intros H. unfold zrange. apply in_map_iff.
  exists (Z.to_nat (k - lo)). split; [lia|]. apply in_seq. lia.
Qed.

Lemma Zlist_min_le (d : Z) (l : list Z) :
  (Zlist_min d l <= d)%Z /\ forall k, In k l -> (Zlist_min d l <= k)%Z.
Proof.
  induction l as [|x l [IHd IH]]; simpl; [split; [lia|contradiction]|].
  split; [lia|]. intros k [->|Hk]; [lia|]. specialize (IH k Hk). lia.
Qed.

Lemma Zlist_max_ge (d : Z) (l : list Z) :
  (d <= Zlist_max d l)%Z /\ forall k, In k l -> (k <= Zlist_max d l)%Z.
Proof.
  induction l as [|x l [IHd IH]]; simpl; [split; [lia|contradiction]|].
  split; [lia|]. intros k [->|Hk]; [lia|]. specialize (IH k Hk). lia.
Qed.

Lemma resample_sum_total (l : list Point) :
  Qsum (map snd (resample_sum f l)) == Qsum (map snd l).
Proof.
  destruct l as [|r l]; [reflexivity|].
  unfold resample_sum.
  set (rows := r :: l).
  set (keys := map (fun p => bucket f (fst p)) rows).
  set (lo := Zlist_min (bucket f (fst r)) keys).
  set (hi := Zlist_max (bucket f (fst r)) keys).
  rewrite map_map. simpl.
  apply bucket_sums_total; [apply zrange_NoDup|].
  intros p Hp. apply zrange_In.
  assert (Hk : In (bucket f (fst p)) keys).
  { unfold keys. apply in_map_iff. now exists p. }
  pose proof (proj2 (Zlist_min_le (bucket f (fst r)) keys) _ Hk).
  pose proof (proj2 (Zlist_max_ge (bucket f (fst r)) keys) _ Hk).
  fold lo in H. fold hi in H0. lia.
Qed.

End Aggregation.

(** C7: resampling a datetime-indexed frame succeeds and the bucket sums add
    up to the total of the input values, at every frequency. *)
Theorem resample_data_conserves_total (df : DataFrame) (f : Freq) :
  datetime_index df = true ->
  exists out,
    resample_data df f = inr out /\
    Qsum (map snd (rows out)) == Qsum (map snd (rows df)).
Proof.
  intros Hd. unfold resample_data. rewrite Hd. simpl.
  eexists. split; [reflexivity|]. simpl. apply resample_sum_total.
Qed.

Lemma resample_data_conserves_total_witness :
  exists out,
    resample_data unordered_frame FreqD = inr out /\
    Qsum (map snd (rows out)) == Qsum (map snd (rows unordered_frame)).
Proof.
  apply (resample_data_conserves_total unordered_frame FreqD). reflexivity.
Defined.

(** C8 fails on rows out of time order and on rows that repeat a timestamp:
    both are resampled without error, the repeated timestamp into one bucket
    holding the sum. *)
Lemma resample_data_accepts_unordered_and_repeated :
  strictly_increasing (map fst (rows unordered_frame)) = false /\
  resample_data unordered_frame FreqH
  = inr (mkFrame true (Some FreqH) [(0%Z, 2); (60%Z, 1)]) /\
  strictly_increasing (map fst (rows duplicate_frame)) = false /\
  resample_data duplicate_frame FreqH
  = inr (mkFrame true (Some FreqH) [(0%Z, 3)]).
Proof. repeat split. Qed.

(** C8, amended: resampling fails exactly when the index of the frame is not
    a datetime index, and then with the ValueError of the guard; on a
    datetime index it returns the resampled frame, whatever the order of the
    rows and whether or not timestamps repeat. *)
Theorem resample_data_fails_iff_not_datetime (df : DataFrame) (f : Freq) :
  ((exists e, resample_data df f = inl e) <-> datetime_index df = false) /\
  (datetime_index df = false <->
   resample_data df f
   = inl (ValueError "The DataFrame index must be a DatetimeIndex.")) /\
  (datetime_index df = true <->
   resample_data df f
   = inr (mkFrame true (Some f) (resample_sum f (rows df)))).
Proof.
  unfold resample_data. destruct (datetime_index df); simpl.
  - repeat split; try discriminate; try reflexivity.
    intros [e He]. discriminate.
  - repeat split; try discriminate; try reflexivity.
    intros _. eexists. reflexivity.
Qed.

(** ** Decomposition *)

Section Decomposition.

Import Statsmodels.

Lemma half_spec (p : nat) : (p = 2 * (p / 2) + p mod 2 /\ p mod 2 < 2)%nat.
Proof. split; [apply Nat.div_mod_eq|apply Nat.mod_upper_bound; lia]. Qed.

Lemma nth_error_zip_with {A B C : Type} (g : A -> B -> C)
    (l1 : list A) (l2 : list B) (i : nat) :
  nth_error (zip_with g l1 l2) i =
    match nth_error l1 i, nth_error l2 i with
    | Some a, Some b => Some (g a b)
    | _, _ => None
    end.
Proof.
  revert l2 i. induction l1 as [|a l1 IH]; intros [|b l2] [|i]; simpl;
    try reflexivity.
  - now destruct (nth_error l1 i).
  - apply IH.
Qed.

Lemma nth_error_combine_both {A B : Type} (l1 : list A) (l2 : list B)
    (i : nat) (a : A) (b : B) :
  nth_error l1 i = Some a -> nth_error l2 i = Some b ->
  nth_error (combine l1 l2) i = Some (a, b).
Proof.
  revert l2 i. induction l1 as [|a' l1 IH]; intros [|b' l2] [|i]; simpl;
    try discriminate.
  - now intros [= ->] [= ->].
  - apply IH.
Qed.

Lemma nth_error_points (l : list Point) (i : nat) (ts : Timestamp) (o : Q) :
  nth_error l i = Some (ts, o) ->
  nth_error (map fst l) i = Some ts /\ nth_error (map snd l) i = Some o.
Proof.
  intros H. split.
  - exact (map_nth_error fst i l H).
  - exact (map_nth_error snd i l H).
Qed.

Lemma filt_length (period : nat) :
  (1 <= period)%nat -> length (filt period) = (2 * (period / 2) + 1)%nat.
Proof.
  intros Hp. unfold filt. pose proof (half_spec period) as [Hd Hm].
  destruct (Nat.even period) eqn:E.
  - apply Nat.even_spec in E. destruct E as [k ->].
    pose proof (half_spec (2 * k)).
    rewrite length_map. cbn [length]. rewrite length_app, repeat_length.
    cbn [length]. lia.
  - rewrite <- Nat.negb_odd in E. apply negb_false_iff, Nat.odd_spec in E.
    destruct E as [k ->]. pose proof (half_spec (2 * k + 1)).
    rewrite repeat_length. lia.
Qed.

Lemma convolve_valid_length (x w : list Q) :
  (length w <= length x)%nat ->
  length (convolve_valid x w) = (length x - length w + 1)%nat.
Proof.
  intros H. unfold convolve_valid.
  destruct (Nat.leb_spec (length w) (length x)); [|lia].
  now rewrite length_map, length_seq.
Qed.

(** A window of [2 h + 1] weights leaves [h] missing values on each side. *)
Lemma convolution_filter_shape (x w : list Q) (h : nat) :
  length w = (2 * h + 1)%nat ->
  convolution_filter x w
  = repeat None h ++ map Some (convolve_valid x w) ++ repeat None h.
Proof.
  intros HL. unfold convolution_filter. rewrite HL, Nat.div2_div.
  pose proof (half_spec (2 * h + 1 + 1)). pose proof (half_spec (2 * h + 1)).
  replace ((2 * h + 1 + 1) / 2 - 1)%nat with h by lia.
  replace ((2 * h + 1 + 1) / 2 - (2 * h + 1) mod 2)%nat with h by lia.
  reflexivity.
Qed.

Lemma convolution_filter_length (x w : list Q) (h : nat) :
  length w = (2 * h + 1)%nat -> (2 * h + 1 <= length x)%nat ->
  length (convolution_filter x w) = length x.
Proof.
  intros HL Hn. rewrite (convolution_filter_shape x w h HL).
  rewrite !length_app, !repeat_length, length_map, convolve_valid_length; lia.
Qed.

Lemma convolution_filter_edge (x w : list Q) (h i : nat) :
  length w = (2 * h + 1)%nat -> (2 * h + 1 <= length x)%nat ->
  (i < length x)%nat -> (i < h \/ length x - h <= i)%nat ->
  nth_error (convolution_filter x w) i = Some None.
Proof.
  intros HL Hn Hi Hedge. rewrite (convolution_filter_shape x w h HL).
  assert (Hc : length (map Some (convolve_valid x w)) = (length x - 2 * h)%nat)
    by (rewrite length_map, convolve_valid_length; lia).
  destruct Hedge as [Hlt|Hge].
  - rewrite nth_error_app1 by (rewrite repeat_length; lia).
    now apply nth_error_repeat.
  - rewrite nth_error_app2 by (rewrite repeat_length; lia).
    rewrite nth_error_app2 by (rewrite Hc, repeat_length; lia).
    apply nth_error_repeat. rewrite Hc, repeat_length. lia.
Qed.

Lemma convolution_filter_inner (x w : list Q) (h i : nat) :
  length w = (2 * h + 1)%nat -> (2 * h + 1 <= length x)%nat ->
  (h <= i < length x - h)%nat ->
  exists t, nth_error (convolution_filter x w) i = Some (Some t).
Proof.
  intros HL Hn Hi. rewrite (convolution_filter_shape x w h HL).
  rewrite nth_error_app2 by (rewrite repeat_length; lia).
  rewrite repeat_length.
  assert (Hc : length (convolve_valid x w) = (length x - 2 * h)%nat)
    by (rewrite convolve_valid_length; lia).
  rewrite nth_error_app1 by (rewrite length_map; lia).
  rewrite nth_error_map.
  destruct (nth_error (convolve_valid x w) (i - h)) as [t|] eqn:E.
  - now exists t.
  - apply nth_error_None in E. lia.
Qed.

Lemma tile_length {A : Type} (l : list A) (k : nat) :
  length (tile l k) = (k * length l)%nat.
Proof.
  unfold tile. induction k as [|k IH]; simpl; [reflexivity|].
  rewrite length_app, IH. reflexivity.
Qed.

Lemma seasonal_mean_length (d : list (option Q)) (period : nat) :
  length (seasonal_mean d period) = period.
Proof. unfold seasonal_mean. now rewrite length_map, length_seq. Qed.

(** The tiled seasonal figures cover the whole series. *)
Lemma tiled_covers (pa : list Q) (n i : nat) :
  (1 <= length pa)%nat -> (i < n)%nat ->
  exists s, nth_error (firstn n (tile pa (n / length pa + 1))) i = Some s.
Proof.
  intros Hp Hi.
  destruct (nth_error (firstn n (tile pa (n / length pa + 1))) i) as [s|] eqn:E.
  - now exists s.
  - apply nth_error_None in E. rewrite length_firstn, tile_length in E.
    pose proof (Nat.div_mod_eq n (length pa)).
    pose proof (Nat.mod_upper_bound n (length pa)). nia.
Qed.

(** Shape of an additive decomposition of at least two periods, position by
    position: the seasonal figure is always there; trend and residual are
    missing within [period / 2] of either end and present elsewhere, the
    residual being what is left of the observation. *)
Lemma additive_components (x : Series) (period : nat) :
  (1 <= period)%nat -> (2 * period <= len x)%nat ->
  exists res,
    decompose_series x Additive (Some period) = inr res /\
    observed res = points x /\
    forall i ts o, nth_error (points x) i = Some (ts, o) ->
      exists s, nth_error (seasonal res) i = Some (ts, s) /\
        ((i < period / 2 \/ len x - period / 2 <= i)%nat ->
         nth_error (trend res) i = Some (ts, None) /\
         nth_error (resid res) i = Some (ts, None)) /\
        ((period / 2 <= i < len x - period / 2)%nat ->
         exists t,
           nth_error (trend res) i = Some (ts, Some t) /\
           nth_error (resid res) i = Some (ts, Some (o - t - s))).
Proof.
  intros Hp Hn. unfold decompose_series, seasonal_decompose, len in *.
  cbv zeta.
  set (xs := map snd (points x)). set (index := map fst (points x)).
  assert (Hlen : length xs = length (points x)) by apply length_map.
  destruct (Nat.ltb_spec (length xs) (2 * period)) as [Hlt|_]; [lia|].
  destruct (Nat.eqb_spec period 0) as [Hz|_]; [lia|].
  set (tr := convolution_filter xs (filt period)).
  set (detrended := zip_with (fun v t => lift2 Qminus (Some v) t) xs tr).
  set (pa0 := seasonal_mean detrended period).
  set (pa := map (fun a => a - Qmean pa0) pa0).
  set (seas := firstn (length xs) (tile pa (length xs / period + 1))).
  eexists. split; [reflexivity|]. cbn [observed trend seasonal resid].
  split; [reflexivity|]. intros i ts o Hi.
  destruct (nth_error_points _ _ _ _ Hi) as [Hts Ho].
  fold index in Hts. fold xs in Ho.
  assert (Hin : (i < length xs)%nat).
  { apply nth_error_Some. rewrite Ho. discriminate. }
  pose proof (half_spec period) as [Hd Hm].
  pose proof (filt_length period Hp) as HL.
  assert (Hfit : (2 * (period / 2) + 1 <= length xs)%nat) by lia.
  assert (Hpa : length pa = period).
  { unfold pa, pa0. now rewrite length_map, seasonal_mean_length. }
  destruct (tiled_covers pa (length xs) i) as [s Hs]; [lia|exact Hin|].
  rewrite Hpa in Hs. fold seas in Hs.
  exists s. split; [now apply nth_error_combine_both|]. split.
  - intros Hedge.
    assert (Hedge' : (i < period / 2 \/ length xs - period / 2 <= i)%nat)
      by lia.
    pose proof (convolution_filter_edge xs _ _ i HL Hfit Hin Hedge') as Ht.
    fold tr in Ht. split; apply nth_error_combine_both; try assumption.
    rewrite nth_error_zip_with. unfold detrended.
    rewrite nth_error_zip_with, Ho, Ht, Hs. reflexivity.
  - intros Hmid.
    destruct (convolution_filter_inner xs _ _ i HL Hfit) as [t Ht]; [lia|].
    fold tr in Ht. exists t. split.
    + now apply nth_error_combine_both.
    + apply nth_error_combine_both; [assumption|].
      rewrite nth_error_zip_with. unfold detrended.
      rewrite nth_error_zip_with, Ho, Ht, Hs. reflexivity.
Qed.

(** C1: for a series of at least two periods the additive decomposition
    succeeds on the index of the input; in the first and the last period/2
    positions trend and residual are missing; everywhere else both are
    present and the observed value is trend + seasonal + residual, hence
    within every positive epsilon of it. *)
Theorem additive_decomposition_adds_up (x : Series) (period : nat) :
  (1 <= period)%nat -> (2 * period <= len x)%nat ->
  exists res,
    decompose_series x Additive (Some period) = inr res /\
    observed res = points x /\
    forall i ts o, nth_error (observed res) i = Some (ts, o) ->
      exists s, nth_error (seasonal res) i = Some (ts, s) /\
        if ((i <? period / 2) || (len x - period / 2 <=? i))%nat
        then nth_error (trend res) i = Some (ts, None) /\
             nth_error (resid res) i = Some (ts, None)
        else exists t r,
             nth_error (trend res) i = Some (ts, Some t) /\
             nth_error (resid res) i = Some (ts, Some r) /\
             o == t + s + r /\
             forall eps, 0 < eps -> Qabs (o - (t + s + r)) < eps.
Proof.
  intros Hp Hn.
  destruct (additive_components x period Hp Hn) as (res & Hres & Hobs & Hat).
  exists res. split; [exact Hres|]. split; [exact Hobs|].
  intros i ts o Hi. rewrite Hobs in Hi.
  destruct (Hat i ts o Hi) as (s & Hs & Hedge & Hmid).
  exists s. split; [exact Hs|].
  destruct ((i <? period / 2) || (len x - period / 2 <=? i))%nat eqn:E.
  - apply Hedge. apply orb_true_iff in E. destruct E as [E|E].
    + left. now apply Nat.ltb_lt.
    + right. now apply Nat.leb_le.
  - apply orb_false_iff in E. destruct E as [E1 E2].
    apply Nat.ltb_ge in E1. apply Nat.leb_gt in E2.
    destruct (Hmid (conj E1 E2)) as (t & Ht & Hr).
    exists t, (o - t - s). repeat split; try assumption.
    + ring.
    + intros eps Heps.
      assert (Z0 : o - (t + s + (o - t - s)) == 0) by ring.
      rewrite Z0. exact Heps.
Qed.

Lemma additive_decomposition_adds_up_witness :
  exists res,
    decompose_series two_weeks Additive (Some 7%nat) = inr res /\
    observed res = points two_weeks /\
    forall i ts o, nth_error (observed res) i = Some (ts, o) ->
      exists s, nth_error (seasonal res) i = Some (ts, s) /\
        if ((i <? 7 / 2) || (len two_weeks - 7 / 2 <=? i))%nat
        then nth_error (trend res) i = Some (ts, None) /\
             nth_error (resid res) i = Some (ts, None)
        else exists t r,
             nth_error (trend res) i = Some (ts, Some t) /\
             nth_error (resid res) i = Some (ts, Some r) /\
             o == t + s + r /\
             forall eps, 0 < eps -> Qabs (o - (t + s + r)) < eps.
Proof.
  apply (additive_decomposition_adds_up two_weeks 7).
  - lia.
  - vm_compute. lia.
Defined.

End Decomposition.

(** ** Reports and the pipeline *)

Section Pipeline.

Lemma first_best_spec (better : Q -> Q -> bool) (R : Q -> Q -> Prop) :
  (forall a, R a a) ->
  (forall a b c, R a b -> R b c -> R a c) ->
  (forall a b, better a b = true -> R b a) ->
  (forall a b, better a b = false -> R a b) ->
  forall l p, first_best better l = Some p ->
    In p l /\ forall q, In q l -> R (snd q) (snd p).
Proof.
  intros Rrefl Rtrans Rt Rf l p. destruct l as [|p0 l]; [discriminate|].
  simpl. intros [= <-]. revert p0.
  induction l as [|q l IH]; intros p0; simpl.
  - split; [now left|]. intros q [<-|[]]. apply Rrefl.
  - destruct (better (snd q) (snd p0)) eqn:E.
    + destruct (IH q) as [Hin Hall]. split.
      * destruct Hin as [<-|Hin]; [right; now left|right; now right].
      * intros q' [<-|[<-|Hq']].
        -- eapply Rtrans; [apply Rt, E|]. apply Hall. now left.
        -- apply Hall. now left.
        -- apply Hall. now right.
    + destruct (IH p0) as [Hin Hall]. split.
      * destruct Hin as [<-|Hin]; [now left|right; now right].
      * intros q' [<-|[<-|Hq']].
        -- apply Hall. now left.
        -- eapply Rtrans; [apply Rf, E|]. apply Hall. now left.
        -- apply Hall. now right.
Qed.

Lemma Qgt_bool_true (a b : Q) : Qgt_bool a b = true -> b <= a.
Proof.
  unfold Qgt_bool. intros H. apply negb_true_iff in H.
  apply Qlt_le_weak, Qnot_le_lt. intro L. apply Qle_bool_iff in L. congruence.
Qed.

Lemma Qgt_bool_false (a b : Q) : Qgt_bool a b = false -> a <= b.
Proof.
  unfold Qgt_bool. intros H. apply negb_false_iff in H.
  now apply Qle_bool_iff.
Qed.

(** [idxmax] of a nonempty series is the label of a point of largest value. *)
Lemma idxmax_spec (l : list Point) :
  l <> [] ->
  exists ts v, idxmax l = inr ts /\ In (ts, v) l /\
               forall q, In q l -> snd q <= v.
Proof.
  intros Hne. unfold idxmax.
  destruct (first_best Qgt_bool l) as [[ts v]|] eqn:E.
  - exists ts, v. split; [reflexivity|].
    apply (first_best_spec Qgt_bool Qle Qle_refl Qle_trans
             Qgt_bool_true Qgt_bool_false l (ts, v) E).
  - destruct l; [congruence|discriminate].
Qed.

(** [idxmin] of a nonempty series is the label of a point of smallest value. *)
Lemma idxmin_spec (l : list Point) :
  l <> [] ->
  exists ts v, idxmin l = inr ts /\ In (ts, v) l /\
               forall q, In q l -> v <= snd q.
Proof.
  intros Hne. unfold idxmin.
  destruct (first_best Qlt_bool l) as [[ts v]|] eqn:E.
  - exists ts, v. split; [reflexivity|].
    apply (first_best_spec Qlt_bool (fun a b => b <= a)); try exact E.
    + apply Qle_refl.
    + intros a b c H1 H2. eapply Qle_trans; eassumption.
    + intros a b H. now apply Qgt_bool_true.
    + intros a b H. now apply Qgt_bool_false.
  - destruct l; [congruence|discriminate].
Qed.

Lemma dropna_In (l : list NaPoint) (ts : Timestamp) (v : Q) :
  In (ts, Some v) l -> In (ts, v) (dropna l).
Proof.
  induction l as [|[t [w|]] l IH]; simpl; [contradiction| |].
  - intros [[= -> ->]|H]; [now left|right; auto].
  - intros [[=]|H]; auto.
Qed.

Lemma branch_of_title_of (r : Resolution) :
  branch_of_title (title_of r) = Some r.
Proof. destruct r; reflexivity. Qed.

(** The report of a pass of [analyze_data] on a result with a defined trend
    point and a seasonal point. *)
Lemma print_decomposition_title_of (res : DecomposeResult) (r : Resolution) :
  dropna (trend res) <> [] -> seasonal res <> [] ->
  exists hi lo,
    idxmax (narrated res (branch_component r)) = inr hi /\
    idxmin (narrated res (branch_component r)) = inr lo /\
    print_decomposition res (title_of r)
    = inr (mkReport (title_of r)
             (fst (identify_low_high_sales (observed res) default_threshold))
             (snd (identify_low_high_sales (observed res) default_threshold))
             (Py.lower (Py.replace_space (title_of r)) ++ ".png")%string
             res
             (Some (mkInsight r (branch_component r) hi lo (branch_format r)))).
Proof.
  intros Ht Hs.
  assert (Hne : narrated res (branch_component r) <> [])
    by (destruct r; assumption).
  destruct (idxmax_spec _ Hne) as (hi & vhi & Hhi & _).
  destruct (idxmin_spec _ Hne) as (lo & vlo & Hlo & _).
  exists hi, lo. split; [exact Hhi|]. split; [exact Hlo|].
  unfold print_decomposition.
  destruct (identify_low_high_sales (observed res) default_threshold)
    as [lows highs].
  rewrite branch_of_title_of. unfold narrated in Hhi, Hlo.
  cbv zeta. rewrite Hhi, Hlo. reflexivity.
Qed.

Lemma resample_data_datetime (df : DataFrame) (f : Freq) :
  datetime_index df = true -> resample_data df f = inr (resampled df f).
Proof. intros H. unfold resample_data. now rewrite H. Qed.

Lemma gate_two_periods (r : Resolution) (n : nat) :
  (min_buckets r <= n)%nat ->
  (1 <= period_of r)%nat /\ (2 * period_of r <= n)%nat.
Proof. destruct r; simpl; lia. Qed.

(** Past the gate the decomposition succeeds, on the resampled rows, with a
    defined trend point and a seasonal point. *)
Lemma decompose_gate_open (r : Resolution) (data : DataFrame) :
  (min_buckets r <= frame_len data)%nat ->
  exists d,
    decompose_series (sales data) Additive (Some (period_of r)) = inr d /\
    observed d = rows data /\
    dropna (trend d) <> [] /\ seasonal d <> [].
Proof.
  intros Hg. destruct (gate_two_periods r _ Hg) as [Hp Hn].
  destruct (additive_components (sales data) (period_of r) Hp Hn)
    as (d & Hd & Hobs & Hat).
  exists d. split; [exact Hd|]. split; [exact Hobs|].
  pose proof (half_spec (period_of r)) as [Hh Hm].
  unfold len, frame_len in *.
  change (points (sales data)) with (rows data) in *.
  destruct (nth_error (rows data) (period_of r / 2)) as [[ts o]|] eqn:E.
  - destruct (Hat _ ts o E) as (s & Hs & _ & Hmid).
    destruct Hmid as (t & Ht & _); [lia|].
    split.
    + apply nth_error_In, dropna_In in Ht. intro H0. now rewrite H0 in Ht.
    + apply nth_error_In in Hs. intro H0. now rewrite H0 in Hs.
  - apply nth_error_None in E. lia.
Qed.

(** Past the gate a pass yields the report of its decomposition. *)
Lemma analysis_pass_open (r : Resolution) (data : DataFrame) :
  (min_buckets r <= frame_len data)%nat ->
  exists d hi lo,
    decompose_series (sales data) Additive (Some (period_of r)) = inr d /\
    idxmax (narrated d (branch_component r)) = inr hi /\
    idxmin (narrated d (branch_component r)) = inr lo /\
    analysis_pass r data
    = inr (Analysis
             (mkReport (title_of r)
                (fst (identify_low_high_sales (rows data) default_threshold))
                (snd (identify_low_high_sales (rows data) default_threshold))
                (Py.lower (Py.replace_space (title_of r)) ++ ".png")%string
                d
                (Some (mkInsight r (branch_component r) hi lo
                         (branch_format r))))).
Proof.
  intros Hg. destruct (decompose_gate_open r data Hg) as (d & Hd & Hobs & Ht & Hs).
  destruct (print_decomposition_title_of d r Ht Hs) as (hi & lo & Hhi & Hlo & Hp).
  exists d, hi, lo. repeat split; try assumption.
  unfold analysis_pass.
  destruct (Nat.leb_spec (min_buckets r) (frame_len data)); [|lia].
  rewrite Hd. cbn [bind]. rewrite Hp. cbn [bind]. now rewrite Hobs.
Qed.

(** Short of the gate a pass yields its "not enough data" line. *)
Lemma analysis_pass_closed (r : Resolution) (data : DataFrame) :
  (frame_len data < min_buckets r)%nat ->
  analysis_pass r data = inr (NotEnoughData (not_enough r)).
Proof.
  intros Hg. unfold analysis_pass.
  destruct (Nat.leb_spec (min_buckets r) (frame_len data)); [lia|reflexivity].
Qed.

Lemma analysis_pass_total (r : Resolution) (data : DataFrame) :
  exists s, analysis_pass r data = inr s.
Proof.
  destruct (Nat.le_gt_cases (min_buckets r) (frame_len data)) as [Hg|Hg].
  - destruct (analysis_pass_open r data Hg) as (d & hi & lo & _ & _ & _ & H).
    eexists. exact H.
  - eexists. now apply analysis_pass_closed.
Qed.

(** [analyze_data] collects the five passes, each on its own resampling. *)
Lemma analyze_data_passes (df : DataFrame) (s1 s2 s3 s4 s5 : Summary) :
  datetime_index df = true ->
  analysis_pass Hourly (resampled df FreqH) = inr s1 ->
  analysis_pass Daily (resampled df FreqD) = inr s2 ->
  analysis_pass Weekly (resampled df FreqW) = inr s3 ->
  analysis_pass Monthly (resampled df FreqM) = inr s4 ->
  analysis_pass Seasonal (resampled df FreqM) = inr s5 ->
  analyze_data df = inr [s1; s2; s3; s4; s5].
Proof.
  intros Hd H1 H2 H3 H4 H5. unfold analyze_data.
  rewrite !(resample_data_datetime df _ Hd). cbn [bind].
  rewrite H1. cbn [bind]. rewrite H2. cbn [bind]. rewrite H3. cbn [bind].
  rewrite H4. cbn [bind]. rewrite H5. reflexivity.
Qed.

(** C2: when the bucket count of a resolution passes its gate, the series
    holds two periods of that resolution, the decomposition returns a result
    instead of the two-cycles error, and the pass yields a report. *)
Theorem gate_guarantees_two_periods (r : Resolution) (data : DataFrame) :
  (min_buckets r <= frame_len data)%nat ->
  (2 * period_of r <= len (sales data))%nat /\
  (exists d,
     decompose_series (sales data) Additive (Some (period_of r)) = inr d) /\
  (exists rep, analysis_pass r data = inr (Analysis rep)).
Proof.
  intros Hg. split; [exact (proj2 (gate_two_periods r _ Hg))|].
  destruct (analysis_pass_open r data Hg) as (d & hi & lo & Hd & _ & _ & Hp).
  split; eexists; eassumption.
Qed.

Lemma gate_guarantees_two_periods_witness :
  (2 * period_of Daily <= len (sales two_weeks_frame))%nat /\
  (exists d,
     decompose_series (sales two_weeks_frame) Additive
       (Some (period_of Daily)) = inr d) /\
  (exists rep, analysis_pass Daily two_weeks_frame = inr (Analysis rep)).
Proof.
  apply (gate_guarantees_two_periods Daily two_weeks_frame).
  vm_compute. lia.
Defined.

(** C3 fails in its last part: a title that names the seasonal pass and also
    contains the text of the monthly test is given the monthly branch, which
    reports the trend extremes; a title without any of the five texts gets no
    narrative at all. *)
Lemma branch_follows_title_text :
  Py.contains (title_of Seasonal) "Seasonal Analysis after Monthly Analysis"
  = true /\
  branch_of_title "Seasonal Analysis after Monthly Analysis" = Some Monthly /\
  (exists rep,
     print_decomposition sample_result
       "Seasonal Analysis after Monthly Analysis" = inr rep /\
     insight rep
     = Some (mkInsight Monthly TrendComponent 2880%Z 1440%Z "%B")) /\
  (exists rep,
     print_decomposition sample_result (title_of Seasonal) = inr rep /\
     insight rep
     = Some (mkInsight Seasonal SeasonalComponent 0%Z 2880%Z "%B")) /\
  (exists rep,
     print_decomposition sample_result "Seasonal" = inr rep /\
     insight rep = None).
Proof.
  split; [reflexivity|]. split; [reflexivity|].
  repeat split; eexists; split; reflexivity.
Qed.

(** Whatever the title, the narrative is the one of the branch its text
    selects. *)
Lemma print_decomposition_branch (res : DecomposeResult) (title : string)
    (rep : Report) :
  print_decomposition res title = inr rep ->
  option_map template (insight rep) = branch_of_title title.
Proof.
  unfold print_decomposition.
  destruct (identify_low_high_sales (observed res) default_threshold)
    as [lows highs].
  destruct (branch_of_title title) as [b|]; cbn [bind].
  - set (s := match branch_component b with
              | TrendComponent => dropna (trend res)
              | SeasonalComponent => seasonal res
              end).
    destruct (idxmax s) as [e|hi]; cbn [bind]; [discriminate|].
    destruct (idxmin s) as [e|lo]; cbn [bind]; [discriminate|].
    intros H. injection H as <-. reflexivity.
  - intros H. injection H as <-. reflexivity.
Qed.

(** C3, amended: on a result with a defined trend point and a seasonal point,
    called with the title of one of the five passes, the report narrates the
    labels of a largest and a smallest point of the defined trend (hourly,
    daily, weekly, monthly) or of the seasonal component (seasonal); for any
    title the branch is the first of the five title texts found in it. *)
Theorem print_decomposition_narrates (res : DecomposeResult) (r : Resolution) :
  dropna (trend res) <> [] -> seasonal res <> [] ->
  exists rep ins vhi vlo,
    print_decomposition res (title_of r) = inr rep /\
    insight rep = Some ins /\
    template ins = r /\
    source ins = match r with
                 | Seasonal => SeasonalComponent
                 | _ => TrendComponent
                 end /\
    In (peak ins, vhi) (narrated res (source ins)) /\
    (forall q, In q (narrated res (source ins)) -> snd q <= vhi) /\
    In (low ins, vlo) (narrated res (source ins)) /\
    (forall q, In q (narrated res (source ins)) -> vlo <= snd q) /\
    forall title rep',
      print_decomposition res title = inr rep' ->
      option_map template (insight rep') = branch_of_title title.
Proof.
  intros Ht Hs.
  destruct (print_decomposition_title_of res r Ht Hs)
    as (hi & lo & Hhi & Hlo & Hp).
  assert (Hne : narrated res (branch_component r) <> [])
    by (destruct r; assumption).
  destruct (idxmax_spec _ Hne) as (hi' & vhi & Hhi' & Hinhi & Hmax).
  destruct (idxmin_spec _ Hne) as (lo' & vlo & Hlo' & Hinlo & Hmin).
  assert (hi' = hi) by congruence. assert (lo' = lo) by congruence. subst.
  eexists. eexists. exists vhi, vlo. split; [exact Hp|].
  cbn [insight template source peak low].
  split; [reflexivity|]. split; [reflexivity|].
  split; [destruct r; reflexivity|].
  repeat (split; [assumption|]).
  intros title rep'. apply print_decomposition_branch.
Qed.

Lemma print_decomposition_narrates_witness :
  exists rep ins vhi vlo,
    print_decomposition sample_result (title_of Seasonal) = inr rep /\
    insight rep = Some ins /\
    template ins = Seasonal /\
    source ins = SeasonalComponent /\
    In (peak ins, vhi) (narrated sample_result (source ins)) /\
    (forall q, In q (narrated sample_result (source ins)) -> snd q <= vhi) /\
    In (low ins, vlo) (narrated sample_result (source ins)) /\
    (forall q, In q (narrated sample_result (source ins)) -> vlo <= snd q) /\
    forall title rep',
      print_decomposition sample_result title = inr rep' ->
      option_map template (insight rep') = branch_of_title title.
Proof.
  apply (print_decomposition_narrates sample_result Seasonal); discriminate.
Defined.

(** C4: on a datetime-indexed frame the daily resampling succeeds; with 13
    daily buckets the daily entry is the "not enough data" line, with 14 it
    is the report of a decomposition with period 7; and the five entries of
    the run are the outcomes of the five passes, each a function of its own
    resampled frame only. *)
Theorem daily_gate_and_independent_passes (df : DataFrame) :
  datetime_index df = true ->
  resample_data df FreqD = inr (resampled df FreqD) /\
  (frame_len (resampled df FreqD) = 13%nat ->
   analysis_pass Daily (resampled df FreqD)
   = inr (NotEnoughData "Not enough data for daily analysis")) /\
  (frame_len (resampled df FreqD) = 14%nat ->
   exists d rep,
     decompose_series (sales (resampled df FreqD)) Additive (Some 7%nat)
     = inr d /\
     analysis_pass Daily (resampled df FreqD) = inr (Analysis rep) /\
     figure rep = d) /\
  exists s1 s2 s3 s4 s5,
    analyze_data df = inr [s1; s2; s3; s4; s5] /\
    analysis_pass Hourly (resampled df FreqH) = inr s1 /\
    analysis_pass Daily (resampled df FreqD) = inr s2 /\
    analysis_pass Weekly (resampled df FreqW) = inr s3 /\
    analysis_pass Monthly (resampled df FreqM) = inr s4 /\
    analysis_pass Seasonal (resampled df FreqM) = inr s5.
Proof.
  intros Hd. split; [now apply resample_data_datetime|]. split; [|split].
  - intros H13. apply (analysis_pass_closed Daily). rewrite H13. simpl. lia.
  - intros H14.
    destruct (analysis_pass_open Daily (resampled df FreqD))
      as (d & hi & lo & Hdec & _ & _ & Hp); [rewrite H14; simpl; lia|].
    exists d. eexists. split; [exact Hdec|]. split; [exact Hp|reflexivity].
  - destruct (analysis_pass_total Hourly (resampled df FreqH)) as [s1 H1].
    destruct (analysis_pass_total Daily (resampled df FreqD)) as [s2 H2].
    destruct (analysis_pass_total Weekly (resampled df FreqW)) as [s3 H3].
    destruct (analysis_pass_total Monthly (resampled df FreqM)) as [s4 H4].
    destruct (analysis_pass_total Seasonal (resampled df FreqM)) as [s5 H5].
    exists s1, s2, s3, s4, s5.
    split; [now apply analyze_data_passes|]. repeat split; assumption.
Qed.

Lemma daily_gate_and_independent_passes_witness :
  resample_data thirteen_days_frame FreqD
  = inr (resampled thirteen_days_frame FreqD) /\
  (frame_len (resampled thirteen_days_frame FreqD) = 13%nat ->
   analysis_pass Daily (resampled thirteen_days_frame FreqD)
   = inr (NotEnoughData "Not enough data for daily analysis")) /\
  (frame_len (resampled thirteen_days_frame FreqD) = 14%nat ->
   exists d rep,
     decompose_series (sales (resampled thirteen_days_frame FreqD)) Additive
       (Some 7%nat) = inr d /\
     analysis_pass Daily (resampled thirteen_days_frame FreqD)
     = inr (Analysis rep) /\
     figure rep = d) /\
  exists s1 s2 s3 s4 s5,
    analyze_data thirteen_days_frame = inr [s1; s2; s3; s4; s5] /\
    analysis_pass Hourly (resampled thirteen_days_frame FreqH) = inr s1 /\
    analysis_pass Daily (resampled thirteen_days_frame FreqD) = inr s2 /\
    analysis_pass Weekly (resampled thirteen_days_frame FreqW) = inr s3 /\
    analysis_pass Monthly (resampled thirteen_days_frame FreqM) = inr s4 /\
    analysis_pass Seasonal (resampled thirteen_days_frame FreqM) = inr s5.
Proof.
  apply (daily_gate_and_independent_passes thirteen_days_frame). reflexivity.
Defined.

(** The frame above does resample to thirteen daily buckets, and one more
    day gives fourteen. *)
Lemma thirteen_and_fourteen_daily_buckets :
  frame_len (resampled thirteen_days_frame FreqD) = 13%nat /\
  frame_len (resampled (mkFrame true None [(45%Z, 1); (18750%Z, 2)]) FreqD)
  = 14%nat.
Proof. split; reflexivity. Qed.

(** C9: past the monthly gate the fourth and fifth entries of the run are
    reports of one and the same decomposition of the monthly series with
    period 12, with the same low and high sales; the monthly report narrates
    the extremes of the defined trend, the seasonal report those of the
    seasonal component. *)
Theorem seasonal_pass_repeats_monthly_decomposition (df : DataFrame) :
  datetime_index df = true ->
  (24 <= frame_len (resampled df FreqM))%nat ->
  exists s1 s2 s3 rm rs im ispec,
    analyze_data df = inr [s1; s2; s3; Analysis rm; Analysis rs] /\
    decompose_series (sales (resampled df FreqM)) Additive (Some 12%nat)
    = inr (figure rm) /\
    figure rs = figure rm /\
    low_sales rs = low_sales rm /\
    high_sales rs = high_sales rm /\
    insight rm = Some im /\ insight rs = Some ispec /\
    source im = TrendComponent /\ source ispec = SeasonalComponent /\
    idxmax (dropna (trend (figure rm))) = inr (peak im) /\
    idxmin (dropna (trend (figure rm))) = inr (low im) /\
    idxmax (seasonal (figure rm)) = inr (peak ispec) /\
    idxmin (seasonal (figure rm)) = inr (low ispec).
Proof.
  intros Hd Hg.
  destruct (analysis_pass_total Hourly (resampled df FreqH)) as [s1 H1].
  destruct (analysis_pass_total Daily (resampled df FreqD)) as [s2 H2].
  destruct (analysis_pass_total Weekly (resampled df FreqW)) as [s3 H3].
  destruct (analysis_pass_open Monthly (resampled df FreqM) Hg)
    as (dm & him & lom & Hdm & Hhim & Hlom & H4).
  destruct (analysis_pass_open Seasonal (resampled df FreqM) Hg)
    as (ds & his & los & Hds & Hhis & Hlos & H5).
  change (period_of Seasonal) with (period_of Monthly) in Hds.
  assert (ds = dm) by congruence. subst ds.
  exists s1, s2, s3. do 4 eexists.
  split; [exact (analyze_data_passes df _ _ _ _ _ Hd H1 H2 H3 H4 H5)|].
  cbn [figure low_sales high_sales insight source peak low].
  repeat split; assumption.
Qed.

Lemma seasonal_pass_repeats_monthly_decomposition_witness :
  exists s1 s2 s3 rm rs im ispec,
    analyze_data two_years_frame
    = inr [s1; s2; s3; Analysis rm; Analysis rs] /\
    decompose_series (sales (resampled two_years_frame FreqM)) Additive
      (Some 12%nat) = inr (figure rm) /\
    figure rs = figure rm /\
    low_sales rs = low_sales rm /\
    high_sales rs = high_sales rm /\
    insight rm = Some im /\ insight rs = Some ispec /\
    source im = TrendComponent /\ source ispec = SeasonalComponent /\
    idxmax (dropna (trend (figure rm))) = inr (peak im) /\
    idxmin (dropna (trend (figure rm))) = inr (low im) /\
    idxmax (seasonal (figure rm)) = inr (peak ispec) /\
    idxmin (seasonal (figure rm)) = inr (low ispec).
Proof.
  apply (seasonal_pass_repeats_monthly_decomposition two_years_frame).
  - reflexivity.
  - vm_compute. lia.
Defined.

End Pipeline.

(** ** More on low and high sales *)

Section ExtremesBounds.

Lemma In_firstn_list {A : Type} (n : nat) (l : list A) (a : A) :
  In a (firstn n l) -> In a l.
Proof.
  intros H. rewrite <- (firstn_skipn n l). apply in_or_app. now left.
Qed.

Lemma In_skipn_list {A : Type} (n : nat) (l : list A) (a : A) :
  In a (skipn n l) -> In a l.
Proof.
  intros H. rewrite <- (firstn_skipn n l). apply in_or_app. now right.
Qed.

Lemma length_nonneg_Q {A : Type} (l : list A) :
  0 <= inject_Z (Z.of_nat (length l)).
Proof. change 0 with (inject_Z 0). rewrite <- Zle_Qle. lia. Qed.

(** For a fraction between zero and a half the cut is at most half of the
    length. *)
Lemma cut_at_most_half (series : list Point) (threshold : Q) :
  0 <= threshold -> threshold <= 1 # 2 ->
  (0 <= cut series threshold /\ 2 * cut series threshold
                               <= Z.of_nat (length series))%Z.
Proof.
  intros H0 Hh. unfold cut.
  set (n := inject_Z (Z.of_nat (length series))).
  assert (Hn : 0 <= n) by apply length_nonneg_Q.
  assert (Hx : 0 <= n * threshold) by now apply Qmult_le_0_compat.
  rewrite int_floor by exact Hx. split.
  - change 0%Z with (Qfloor 0). now apply Qfloor_resp_le.
  - pose proof (Qfloor_le (n * threshold)) as Hf.
    assert (Hnt : n * threshold <= n * (1 # 2)).
    { rewrite !(Qmult_comm n). now apply Qmult_le_compat_r. }
    assert (H2 : inject_Z (2 * Qfloor (n * threshold)) <= n).
    { rewrite inject_Z_mult.
      apply Qle_trans with (inject_Z 2 * (n * (1 # 2))).
      - apply Qmult_le_l; [reflexivity|]. eapply Qle_trans; eassumption.
      - assert (E : inject_Z 2 * (n * (1 # 2)) == n) by (unfold inject_Z; field).
        rewrite E. apply Qle_refl. }
    unfold n in H2. now rewrite <- Zle_Qle in H2.
Qed.

(** In a list sorted by value, everything before a split point is at most
    everything after it. *)
Lemma sorted_split_le (l1 l2 : list Point) :
  LocallySorted value_le (l1 ++ l2) ->
  forall p q, In p l1 -> In q l2 -> snd p <= snd q.
Proof.
  intros Hs. apply Sorted_LocallySorted_iff in Hs.
  apply Sorted_StronglySorted in Hs;
    [|intros a b c; unfold value_le; apply Qle_trans].
  induction l1 as [|a l1 IH]; [contradiction|].
  simpl in Hs. apply StronglySorted_inv in Hs. destruct Hs as [Hs Ha].
  intros p q [<-|Hp] Hq.
  - rewrite Forall_forall in Ha. apply (Ha q). apply in_or_app. now right.
  - now apply IH.
Qed.

(** X1: for a threshold between 0 and 1/2 the two slices together never hold
    more points than the series. *)
Theorem low_high_sales_at_most_series (series : list Point) (threshold : Q) :
  0 <= threshold -> threshold <= 1 # 2 ->
  (length (fst (identify_low_high_sales series threshold))
   + length (snd (identify_low_high_sales series threshold))
   <= length series)%nat.
Proof.
  intros H0 Hh. destruct (cut_at_most_half series threshold H0 Hh) as [Hk0 Hk].
  destruct (Z.eq_dec (cut series threshold) 0) as [E|E].
  - rewrite (identify_cut_zero _ _ E). simpl. rewrite sort_values_length. lia.
  - rewrite (identify_cut_pos series threshold (Z.to_nat (cut series threshold)))
      by lia.
    simpl. rewrite length_firstn, length_skipn, sort_values_length. lia.
Qed.

Lemma low_high_sales_at_most_series_witness :
  (length (fst (identify_low_high_sales three_sales (1 # 4)))
   + length (snd (identify_low_high_sales three_sales (1 # 4)))
   <= length three_sales)%nat.
Proof.
  apply (low_high_sales_at_most_series three_sales (1 # 4));
    vm_compute; discriminate.
Defined.

(** X2: for a threshold between 0 and 1/2 no low point has a larger value
    than a high point. *)
Theorem low_sales_below_high_sales (series : list Point) (threshold : Q) :
  0 <= threshold -> threshold <= 1 # 2 ->
  Forall (fun p =>
            Forall (fun q => snd p <= snd q)
                   (snd (identify_low_high_sales series threshold)))
         (fst (identify_low_high_sales series threshold)).
Proof.
  intros H0 Hh. apply Forall_forall. intros p Hp0.
  apply Forall_forall. intros q Hq0. revert Hp0 Hq0.
  destruct (cut_at_most_half series threshold H0 Hh) as [Hk0 Hk].
  destruct (Z.eq_dec (cut series threshold) 0) as [E|E].
  - rewrite (identify_cut_zero _ _ E). simpl. contradiction.
  - set (k := Z.to_nat (cut series threshold)).
    rewrite (identify_cut_pos series threshold k) by (unfold k; lia).
    simpl. intros Hp Hq.
    apply (sorted_split_le (firstn k (sort_values series))
                           (skipn k (sort_values series))).
    + rewrite firstn_skipn. apply sort_values_sorted.
    + exact Hp.
    + replace (length series - k)%nat with ((length series - 2 * k) + k)%nat
        in Hq by (unfold k; lia).
      rewrite <- skipn_skipn in Hq. eapply In_skipn_list. exact Hq.
Qed.

Lemma low_sales_below_high_sales_witness :
  Forall (fun p =>
            Forall (fun q => snd p <= snd q)
                   (snd (identify_low_high_sales eight_sales (1 # 4))))
         (fst (identify_low_high_sales eight_sales (1 # 4))).
Proof.
  apply (low_sales_below_high_sales eight_sales (1 # 4));
    vm_compute; discriminate.
Defined.

(** X3: whatever the threshold, every point of either slice is a point of
    the series. *)
Theorem low_high_sales_from_series (series : list Point) (threshold : Q)
    (p : Point) :
  (In p (fst (identify_low_high_sales series threshold)) -> In p series) /\
  (In p (snd (identify_low_high_sales series threshold)) -> In p series).
Proof.
  rewrite identify_low_high_sales_cut. simpl.
  unfold Py.slice_to, Py.slice_from. split; intros H.
  - apply In_firstn_list in H.
    eapply Permutation_in; [apply Permutation_sym, sort_values_perm|exact H].
  - apply In_skipn_list in H.
    eapply Permutation_in; [apply Permutation_sym, sort_values_perm|exact H].
Qed.

(** X5: for a threshold of at most 1/2 that selects at least one point, the
    sorted series is the low slice, a middle part and the high slice, in
    that order: the slices are disjoint runs of equal length. *)
Theorem low_middle_high_partition (series : list Point) (threshold : Q) :
  0 <= threshold -> threshold <= 1 # 2 ->
  (1 <= cut series threshold)%Z ->
  exists middle,
    sort_values series
    = fst (identify_low_high_sales series threshold) ++ middle
      ++ snd (identify_low_high_sales series threshold) /\
    length (fst (identify_low_high_sales series threshold))
    = Z.to_nat (cut series threshold) /\
    length (snd (identify_low_high_sales series threshold))
    = Z.to_nat (cut series threshold).
Proof.
  intros H0 Hh H1. destruct (cut_at_most_half series threshold H0 Hh) as [_ Hk].
  set (k := Z.to_nat (cut series threshold)).
  rewrite (identify_cut_pos series threshold k) by (unfold k; lia).
  simpl. set (l := sort_values series).
  assert (Hl : length l = length series) by apply sort_values_length.
  exists (firstn (length series - 2 * k) (skipn k l)). split; [|split].
  - replace (length series - k)%nat with ((length series - 2 * k) + k)%nat
      by (unfold k; lia).
    rewrite <- skipn_skipn, firstn_skipn, firstn_skipn. reflexivity.
  - rewrite length_firstn. unfold k in *. lia.
  - rewrite length_skipn. unfold k in *. lia.
Qed.

Lemma low_middle_high_partition_witness :
  exists middle,
    sort_values eight_sales
    = fst (identify_low_high_sales eight_sales (1 # 4)) ++ middle
      ++ snd (identify_low_high_sales eight_sales (1 # 4)) /\
    length (fst (identify_low_high_sales eight_sales (1 # 4)))
    = Z.to_nat (cut eight_sales (1 # 4)) /\
    length (snd (identify_low_high_sales eight_sales (1 # 4)))
    = Z.to_nat (cut eight_sales (1 # 4)).
Proof.
  apply (low_middle_high_partition eight_sales (1 # 4));
    vm_compute; discriminate.
Defined.

End ExtremesBounds.

(** ** Low and high sales with a float threshold *)

Section FloatThreshold.

Lemma Qfloor_le_round (x : Q) : (Qfloor x <= PyFloat.round_half_even x)%Z.
Proof.
  unfold PyFloat.round_half_even.
  destruct (Qcompare _ _); [destruct (Z.even _)| |]; lia.
Qed.

Lemma round_half_even_lower (x : Q) (k : Z) :
  inject_Z k <= x -> (k <= PyFloat.round_half_even x)%Z.
Proof.
  intros H. apply Z.le_trans with (Qfloor x); [|apply Qfloor_le_round].
  rewrite <- (Qfloor_Z k). now apply Qfloor_resp_le.
Qed.

Lemma round_half_even_upper (x : Q) (k : Z) :
  x <= inject_Z k -> (PyFloat.round_half_even x <= k)%Z.
Proof.
  intros H. unfold PyFloat.round_half_even.
  assert (Hf : (Qfloor x <= k)%Z).
  { rewrite <- (Qfloor_Z k). now apply Qfloor_resp_le. }
  assert (Hup : 0 < x - inject_Z (Qfloor x) -> (Qfloor x + 1 <= k)%Z).
  { intros Hpos. assert (Hlt : inject_Z (Qfloor x) < inject_Z k).
    { apply Qlt_le_trans with x; [|exact H].
      apply Qlt_minus_iff. exact Hpos. }
    rewrite <- Zlt_Qlt in Hlt. lia. }
  destruct (Qcompare_spec (x - inject_Z (Qfloor x)) (1 # 2)) as [E|E|E].
  - destruct (Z.even _); [exact Hf|]. apply Hup. rewrite E. reflexivity.
  - exact Hf.
  - apply Hup. apply Qlt_trans with (1 # 2); [reflexivity|exact E].
Qed.

Lemma two_power_pos (e : Z) : 0 < 2 ^ e.
Proof. apply Qpower_0_lt. reflexivity. Qed.

Lemma two_power_plus (a b : Z) : 2 ^ (a + b) == 2 ^ a * 2 ^ b.
Proof. apply Qpower_plus. discriminate. Qed.

Lemma two_power_le (a b : Z) : (a <= b)%Z -> 2 ^ a <= 2 ^ b.
Proof. intros H. apply Qpower_le_compat_l; [exact H|discriminate]. Qed.

Lemma two_power_Z (a : Z) : (0 <= a)%Z -> inject_Z (2 ^ a) == 2 ^ a.
Proof. intros H. now rewrite Zpower_Qpower. Qed.

(** [ilog2] is the floor of the binary logarithm. *)
Lemma ilog2_spec (x : Q) :
  0 < x -> 2 ^ PyFloat.ilog2 x <= x /\ x < 2 ^ (PyFloat.ilog2 x + 1).
Proof.
  intros Hx. unfold PyFloat.ilog2.
  destruct x as [a b]. cbn [Qnum Qden].
  assert (Ha : (0 < a)%Z) by (unfold Qlt in Hx; simpl in Hx; lia).
  destruct (Z.log2_spec a Ha) as [Ha1 Ha2].
  destruct (Z.log2_spec (Zpos b) eq_refl) as [Hb1 Hb2].
  pose proof (Z.log2_nonneg a) as Hla.
  pose proof (Z.log2_nonneg (Zpos b)) as Hlb.
  set (la := Z.log2 a) in *. set (lb := Z.log2 (Zpos b)) in *.
  assert (Hq : a # b == inject_Z a / inject_Z (Zpos b)) by apply Qmake_Qdiv.
  assert (Hbpos : 0 < inject_Z (Zpos b)) by reflexivity.
  assert (Hlow : 2 ^ (la - lb - 1) <= a # b).
  { rewrite Hq. apply Qle_shift_div_l; [exact Hbpos|].
    apply Qle_trans with (2 ^ (la - lb - 1) * 2 ^ (lb + 1)).
    - apply Qmult_le_l; [apply two_power_pos|].
      rewrite <- two_power_Z by lia. rewrite <- Zle_Qle.
      unfold Z.succ in Hb2. lia.
    - rewrite <- two_power_plus.
      replace (la - lb - 1 + (lb + 1))%Z with la by lia.
      rewrite <- two_power_Z by lia. now rewrite <- Zle_Qle. }
  assert (Hup : a # b < 2 ^ (la - lb + 1)).
  { rewrite Hq. apply Qlt_shift_div_r; [exact Hbpos|].
    apply Qlt_le_trans with (2 ^ (la - lb + 1) * 2 ^ lb).
    - rewrite <- two_power_plus.
      replace (la - lb + 1 + lb)%Z with (la + 1)%Z by lia.
      rewrite <- two_power_Z by lia. rewrite <- Zlt_Qlt.
      unfold Z.succ in Ha2. exact Ha2.
    - apply Qmult_le_l; [apply two_power_pos|].
      rewrite <- two_power_Z by lia. now rewrite <- Zle_Qle. }
  destruct (Qle_bool (2 ^ (la - lb)) (a # b)) eqn:E.
  - apply Qle_bool_iff in E. split; [exact E|exact Hup].
  - split; [exact Hlow|].
    replace (la - lb - 1 + 1)%Z with (la - lb)%Z by lia.
    apply Qnot_le_lt. intros H. apply Qle_bool_iff in H. congruence.
Qed.

Lemma round_magnitude_eq (x : Q) :
  PyFloat.round_magnitude x
  == inject_Z (PyFloat.round_half_even (x / 2 ^ PyFloat.exponent x))
     * 2 ^ PyFloat.exponent x.
Proof. unfold PyFloat.round_magnitude. cbv zeta. apply Qred_correct. Qed.

(** Rounding never crosses a float: a float below the number stays below
    the rounded number, a float above it stays above. *)
Lemma round_magnitude_between (x y : Q) :
  0 < x -> representable y ->
  (y <= x -> y <= PyFloat.round_magnitude x) /\
  (x <= y -> PyFloat.round_magnitude x <= y).
Proof.
  intros Hx (M & E & HM & HE & Hy).
  rewrite round_magnitude_eq.
  set (e := PyFloat.exponent x).
  pose proof (two_power_pos e) as Hpe.
  destruct (Z.le_gt_cases e E) as [HeE|HeE].
  - (* y is a multiple of 2^e *)
    assert (HK : y == inject_Z (M * 2 ^ (E - e)) * 2 ^ e).
    { rewrite Hy, inject_Z_mult, two_power_Z by lia.
      rewrite <- Qmult_assoc, <- two_power_plus.
      now replace (E - e + e)%Z with E by lia. }
    rewrite HK. split; intros H.
    + apply Qmult_le_compat_r; [|now apply Qlt_le_weak].
      rewrite <- Zle_Qle. apply round_half_even_lower.
      apply Qle_shift_div_l; assumption.
    + apply Qmult_le_compat_r; [|now apply Qlt_le_weak].
      rewrite <- Zle_Qle. apply round_half_even_upper.
      apply Qle_shift_div_r; assumption.
  - (* y lies below the binade of x *)
    assert (He : e = (PyFloat.ilog2 x - 52)%Z)
      by (unfold e, PyFloat.exponent in *; lia).
    destruct (ilog2_spec x Hx) as [Hlo _].
    assert (Hbin : 2 ^ 52 * 2 ^ e <= x).
    { rewrite <- two_power_plus.
      replace (52 + e)%Z with (PyFloat.ilog2 x) by lia. exact Hlo. }
    assert (Hyb : y < 2 ^ 52 * 2 ^ e).
    { rewrite Hy. apply Qlt_le_trans with (2 ^ 53 * 2 ^ E).
      - apply Qmult_lt_compat_r; [apply two_power_pos|].
        rewrite <- two_power_Z by lia. rewrite <- Zlt_Qlt. lia.
      - rewrite <- !two_power_plus. apply two_power_le. lia. }
    split; intros H.
    + apply Qlt_le_weak. eapply Qlt_le_trans; [exact Hyb|].
      apply Qmult_le_compat_r; [|now apply Qlt_le_weak].
      rewrite <- two_power_Z by lia. rewrite <- Zle_Qle.
      apply round_half_even_lower. rewrite two_power_Z by lia.
      apply Qle_shift_div_l; assumption.
    + exfalso. apply (Qlt_irrefl y).
      eapply Qlt_le_trans; [exact Hyb|]. eapply Qle_trans; eassumption.
Qed.

Lemma round_magnitude_nonneg (x : Q) :
  0 < x -> 0 <= PyFloat.round_magnitude x.
Proof.
  intros Hx. rewrite round_magnitude_eq.
  pose proof (two_power_pos (PyFloat.exponent x)) as Hp.
  apply Qmult_le_0_compat; [|now apply Qlt_le_weak].
  change 0 with (inject_Z 0). rewrite <- Zle_Qle.
  apply round_half_even_lower. change (inject_Z 0) with 0.
  apply Qle_shift_div_l; [exact Hp|]. rewrite Qmult_0_l.
  now apply Qlt_le_weak.
Qed.

Lemma round_compat (x y : Q) : x == y -> PyFloat.round x = PyFloat.round y.
Proof.
  intros H. unfold PyFloat.round. now rewrite (Qred_complete x y H).
Qed.

Lemma round_zero (x : Q) : x == 0 -> PyFloat.round x = PyFloat.Finite 0.
Proof. intros H. now rewrite (round_compat x 0 H). Qed.

(** A positive number below a float [hi] rounds to a float: it does not
    overflow, and it stays between the floats around it. *)
Lemma round_positive (x hi : Q) :
  0 < x -> x <= hi -> representable hi -> hi < 2 ^ 1024 ->
  exists a,
    PyFloat.round x = PyFloat.Finite a /\ 0 <= a /\ a <= hi /\
    forall lo, representable lo -> lo <= x -> lo <= a.
Proof.
  intros Hx Hhi Hr Hmax. unfold PyFloat.round. cbv zeta.
  assert (Hq : Qred x == x) by apply Qred_correct.
  assert (Hx' : 0 < Qred x) by now rewrite Hq.
  assert (Hc : Qcompare (Qred x) 0 = Gt) by now apply Qgt_alt.
  rewrite Hc. set (a := PyFloat.round_magnitude (Qred x)).
  assert (Ha : a <= hi).
  { apply (round_magnitude_between (Qred x) hi Hx' Hr). now rewrite Hq. }
  destruct (Qle_bool (2 ^ 1024) a) eqn:E.
  - apply Qle_bool_iff in E. exfalso. apply (Qlt_irrefl hi).
    eapply Qlt_le_trans; [exact Hmax|]. eapply Qle_trans; eassumption.
  - exists a. split; [reflexivity|]. split; [now apply round_magnitude_nonneg|].
    split; [exact Ha|]. intros lo Hlo Hle.
    apply (round_magnitude_between (Qred x) lo Hx' Hlo). now rewrite Hq.
Qed.

Lemma representable_Z (n : Z) :
  (0 < n < 2 ^ 53)%Z -> representable (inject_Z n).
Proof.
  intros Hn. exists n, 0%Z. split; [exact Hn|]. split; [lia|].
  change (2 ^ 0) with 1. now rewrite Qmult_1_r.
Qed.

Lemma below_overflow (n : Z) : (n < 2 ^ 53)%Z -> inject_Z n < 2 ^ 1024.
Proof.
  intros Hn. apply Qlt_le_trans with (2 ^ 53).
  - rewrite <- two_power_Z by lia. now rewrite <- Zlt_Qlt.
  - apply two_power_le. lia.
Qed.

(** A length below 2^53 is converted without rounding. *)
Lemma of_int_exact (n : Z) :
  (0 <= n < 2 ^ 53)%Z ->
  exists a, PyFloat.of_int n = inr (PyFloat.Finite a) /\ a == inject_Z n.
Proof.
  intros Hn. unfold PyFloat.of_int.
  destruct (Z.eq_dec n 0) as [->|Hne].
  - exists 0. split; reflexivity.
  - assert (Hr : representable (inject_Z n)) by (apply representable_Z; lia).
    destruct (round_positive (inject_Z n) (inject_Z n)) as (a & -> & _ & Hle & Hge).
    + change 0 with (inject_Z 0). rewrite <- Zlt_Qlt. lia.
    + apply Qle_refl.
    + exact Hr.
    + apply below_overflow. lia.
    + exists a. split; [reflexivity|].
      apply Qle_antisym; [exact Hle|]. apply Hge; [exact Hr|apply Qle_refl].
Qed.

(** On a series of fewer than 2^53 points the count is the rounded product
    of the length and the threshold, truncated. *)
Lemma cut_float_product (series : list Point) (threshold : Q) :
  (Z.of_nat (length series) < 2 ^ 53)%Z ->
  cut_float series (PyFloat.Finite threshold)
  = PyFloat.int
      (PyFloat.round (inject_Z (Z.of_nat (length series)) * threshold)).
Proof.
  intros Hn. unfold cut_float.
  destruct (of_int_exact (Z.of_nat (length series))) as (a & -> & Ha); [lia|].
  cbn [bind PyFloat.mul]. f_equal. apply round_compat. now rewrite Ha.
Qed.

Lemma identify_float_cut (series : list Point) (threshold : PyFloat.float) :
  identify_low_high_sales_float series threshold
  = (k <- cut_float series threshold ;;
     inr (Py.slice_to (sort_values series) k,
          Py.slice_from (sort_values series) (- k))).
Proof.
  unfold identify_low_high_sales_float, cut_float.
  rewrite sort_values_length.
  destruct (PyFloat.of_int _) as [e|n]; [reflexivity|]. cbn [bind].
  destruct (PyFloat.int _); reflexivity.
Qed.

(** A count that reaches the length gives the whole sorted series twice. *)
Lemma slices_whole {A : Type} (l : list A) (k : Z) :
  (Z.of_nat (length l) <= k)%Z ->
  Py.slice_to l k = l /\ Py.slice_from l (- k) = l.
Proof.
  intros Hk. unfold Py.slice_to, Py.slice_from, Py.slice_index.
  destruct (Z.ltb_spec k 0); [lia|].
  rewrite Nat.min_l by lia. rewrite firstn_all. split; [reflexivity|].
  destruct (Z.ltb_spec (- k) 0).
  - now replace (Z.to_nat (Z.max 0 (Z.of_nat (length l) + - k))) with 0%nat
      by lia.
  - now replace (Nat.min (length l) (Z.to_nat (- k))) with 0%nat by lia.
Qed.

(** C10, amended: for a nonempty series whose count int(len * threshold),
    as Python evaluates it on a float threshold, is zero, the low slice is
    empty and the high slice is the whole series sorted by value, so the two
    lengths add up to n. *)
Theorem high_sales_whole_series_when_cut_zero
    (series : list Point) (threshold : PyFloat.float) :
  (1 <= length series)%nat ->
  cut_float series threshold = inr 0%Z ->
  exists low high,
    identify_low_high_sales_float series threshold = inr (low, high) /\
    low = [] /\
    high = sort_values series /\
    length high = length series /\
    (length low + length high)%nat = length series.
Proof.
  intros _ Hk. exists [], (sort_values series).
  rewrite identify_float_cut, Hk. cbn [bind Z.opp].
  rewrite slice_to_zero, slice_from_zero, sort_values_length.
  repeat split.
Qed.

Lemma high_sales_whole_series_when_cut_zero_witness :
  exists low high,
    identify_low_high_sales_float three_sales (PyFloat.Finite (1 # 4))
    = inr (low, high) /\
    low = [] /\
    high = sort_values three_sales /\
    length high = length three_sales /\
    (length low + length high)%nat = length three_sales.
Proof.
  apply (high_sales_whole_series_when_cut_zero three_sales
           (PyFloat.Finite (1 # 4))).
  - simpl. lia.
  - vm_compute. reflexivity.
Defined.

(** The count is zero whenever the exact product is at most the largest
    float below one. *)
Lemma cut_float_zero (series : list Point) (threshold : Q) :
  0 <= threshold ->
  (Z.of_nat (length series) < 2 ^ 53)%Z ->
  inject_Z (Z.of_nat (length series)) * threshold <= 1 - 2 ^ (-53) ->
  cut_float series (PyFloat.Finite threshold) = inr 0%Z.
Proof.
  intros Ht Hn Hx. rewrite cut_float_product by exact Hn.
  set (x := inject_Z (Z.of_nat (length series)) * threshold) in *.
  assert (Hx0 : 0 <= x).
  { apply Qmult_le_0_compat; [|exact Ht].
    change 0 with (inject_Z 0). rewrite <- Zle_Qle. lia. }
  destruct (Qle_lt_or_eq _ _ Hx0) as [Hpos|Hz].
  - destruct (round_positive x (1 - 2 ^ (-53)) Hpos Hx)
      as (a & -> & Ha0 & Ha1 & _).
    + exists (2 ^ 53 - 1)%Z, (-53)%Z. split; [lia|]. split; [lia|].
      reflexivity.
    + reflexivity.
    + cbn [PyFloat.int]. f_equal. apply int_small; [exact Ha0|].
      eapply Qle_lt_trans; [exact Ha1|]. reflexivity.
  - rewrite round_zero by (symmetry; exact Hz). reflexivity.
Qed.

(** C6, amended: when the product of the length and a float threshold is at
    most the largest float below one, the low slice is empty, and an empty
    series gives two empty slices. *)
Theorem low_sales_empty_below_inverse_threshold
    (series : list Point) (threshold : Q) :
  0 <= threshold ->
  (Z.of_nat (length series) < 2 ^ 53)%Z ->
  inject_Z (Z.of_nat (length series)) * threshold <= 1 - 2 ^ (-53) ->
  exists high,
    identify_low_high_sales_float series (PyFloat.Finite threshold)
    = inr ([], high) /\
    (series = [] -> high = []).
Proof.
  intros Ht Hn Hx. exists (sort_values series).
  rewrite identify_float_cut, (cut_float_zero series threshold Ht Hn Hx).
  cbn [bind Z.opp]. rewrite slice_to_zero, slice_from_zero.
  split; [reflexivity|]. now intros ->.
Qed.

Lemma low_sales_empty_below_inverse_threshold_witness :
  exists high,
    identify_low_high_sales_float three_sales (PyFloat.Finite (1 # 4))
    = inr ([], high) /\
    (three_sales = [] -> high = []).
Proof.
  apply (low_sales_empty_below_inverse_threshold three_sales (1 # 4)).
  - vm_compute. discriminate.
  - vm_compute. reflexivity.
  - vm_compute. discriminate.
Defined.

(** C6 fails at three points with the float 0.25: 1 <= 3 < 1/0.25, yet the
    low slice holds no point. *)
Lemma low_sales_can_be_empty :
  (1 <= length three_sales)%nat /\
  inject_Z (Z.of_nat (length three_sales)) < 1 / (1 # 4) /\
  identify_low_high_sales_float three_sales (PyFloat.Finite (1 # 4))
  = inr ([], [(60%Z, 1); (120%Z, 2); (0%Z, 3)]).
Proof. split; [simpl; lia|split; reflexivity]. Qed.

(** C10 fails in exact arithmetic: with three points and the float 1/3 the
    exact product lies below one, floor(threshold * n) = 0 and n <
    1/threshold, but the float product rounds up to one and each slice
    holds one point. *)
Lemma cut_zero_in_exact_arithmetic_only :
  float_third = PyFloat.Finite (6004799503160661 # 18014398509481984) /\
  (1 <= length three_sales)%nat /\
  Qfloor (inject_Z (Z.of_nat (length three_sales))
          * (6004799503160661 # 18014398509481984)) = 0%Z /\
  inject_Z (Z.of_nat (length three_sales))
  < 1 / (6004799503160661 # 18014398509481984) /\
  cut_float three_sales float_third = inr 1%Z /\
  identify_low_high_sales_float three_sales float_third
  = inr ([(60%Z, 1)], [(0%Z, 3)]).
Proof. split; [reflexivity|]. split; [simpl; lia|]. repeat split. Qed.

(** [PyFloat.mul] against the reference product: 3 * (1/3), a tie that
    rounds up to one; 7 * 0.1; 10 * 2^1023, which overflows; -5 * 0.1;
    half of the smallest float, a tie that rounds to zero; half of three
    times the smallest float, a tie that rounds up. *)
Example float_product_agrees_with_reference :
  Forall (fun '(m1, e1, m2, e2) =>
            model_mul m1 e1 m2 e2 = reference_mul m1 e1 m2 e2)
    [(3, 0, 6004799503160661, -54);
     (7, 0, 3602879701896397, -55);
     (10, 0, 1, 1023);
     (-5, 0, 3602879701896397, -55);
     (1, -1074, 1, -1);
     (3, -1074, 1, -1);
     (9007199254740991, 0, 9007199254740991, -53);
     (25, 0, 1, -2)]%Z.
Proof. repeat constructor. Qed.

(** With the float 1e308 the product overflows and [int] raises. *)
Example identify_low_high_sales_float_overflow :
  identify_low_high_sales_float three_sales float_1e308
  = inl (OverflowError "cannot convert float infinity to integer").
Proof. vm_compute. reflexivity. Qed.

(** X4: a float threshold of one or more, with a count that fits a machine
    integer, gives the whole sorted series twice. *)
Theorem low_high_sales_whole_series_from_one
    (series : list Point) (threshold : Q) :
  1 <= threshold ->
  (Z.of_nat (length series) < 2 ^ 53)%Z ->
  inject_Z (Z.of_nat (length series)) * threshold <= 2 ^ 62 ->
  identify_low_high_sales_float series (PyFloat.Finite threshold)
  = inr (sort_values series, sort_values series).
Proof.
  intros Ht Hn Hx. rewrite identify_float_cut, cut_float_product by exact Hn.
  set (n := Z.of_nat (length series)) in *.
  assert (Hnx : inject_Z n <= inject_Z n * threshold).
  { rewrite <- (Qmult_1_r (inject_Z n)) at 1.
    rewrite !(Qmult_comm (inject_Z n)). apply Qmult_le_compat_r; [exact Ht|].
    change 0 with (inject_Z 0). rewrite <- Zle_Qle. lia. }
  assert (Hwhole : forall k, (n <= k)%Z ->
            inr (Py.slice_to (sort_values series) k,
                 Py.slice_from (sort_values series) (- k))
            = (inr (sort_values series, sort_values series)
               : Result (list Point * list Point))).
  { intros k Hk.
    destruct (slices_whole (sort_values series) k) as [-> ->];
      [rewrite sort_values_length; exact Hk|reflexivity]. }
  destruct (Z.eq_dec n 0) as [E|E].
  - rewrite round_zero by (rewrite E; ring). cbn [PyFloat.int bind].
    apply Hwhole. rewrite E. reflexivity.
  - assert (Hpos : 0 < inject_Z n * threshold).
    { eapply Qlt_le_trans; [|exact Hnx].
      change 0 with (inject_Z 0). rewrite <- Zlt_Qlt. lia. }
    destruct (round_positive _ (2 ^ 62) Hpos Hx) as (a & -> & Ha0 & _ & Hlo).
    + exists 1%Z, 62%Z. split; [lia|]. split; [lia|]. now rewrite Qmult_1_l.
    + reflexivity.
    + cbn [PyFloat.int bind]. apply Hwhole.
      rewrite int_floor by exact Ha0. rewrite <- (Qfloor_Z n).
      apply Qfloor_resp_le. apply Hlo; [|exact Hnx].
      apply representable_Z. lia.
Qed.

Lemma low_high_sales_whole_series_from_one_witness :
  identify_low_high_sales_float three_sales (PyFloat.Finite (3 # 2))
  = inr (sort_values three_sales, sort_values three_sales).
Proof.
  apply (low_high_sales_whole_series_from_one three_sales (3 # 2)).
  - vm_compute. discriminate.
  - vm_compute. reflexivity.
  - vm_compute. discriminate.
Defined.

(** X22: with the default threshold 0.25 on a series of fewer than 2^53
    points nothing is lost in rounding: the float evaluation raises nothing
    and returns the slices of the exact one. *)
Theorem default_threshold_product_exact (series : list Point) :
  (Z.of_nat (length series) < 2 ^ 53)%Z ->
  identify_low_high_sales_float series (PyFloat.Finite default_threshold)
  = inr (identify_low_high_sales series default_threshold).
Proof.
  intros Hn. rewrite identify_float_cut, cut_float_product by exact Hn.
  rewrite identify_low_high_sales_cut. unfold cut.
  set (n := Z.of_nat (length series)) in *.
  destruct (Z.eq_dec n 0) as [E|E].
  - rewrite round_zero by (rewrite E; reflexivity). rewrite E. reflexivity.
  - assert (Hpos : 0 < inject_Z n * default_threshold).
    { apply Qmult_lt_0_compat; [|reflexivity].
      change 0 with (inject_Z 0). rewrite <- Zlt_Qlt. lia. }
    assert (Hr : representable (inject_Z n * default_threshold)).
    { exists n, (-2)%Z. split; [lia|]. split; [lia|]. reflexivity. }
    destruct (round_positive _ _ Hpos (Qle_refl _) Hr) as (a & -> & Ha0 & Hle & Hge).
    + eapply Qle_lt_trans; [|apply (below_overflow n); lia].
      rewrite <- (Qmult_1_r (inject_Z n)) at 2.
      rewrite !(Qmult_comm (inject_Z n)). apply Qmult_le_compat_r.
      * discriminate.
      * change 0 with (inject_Z 0). rewrite <- Zle_Qle. lia.
    + cbn [PyFloat.int bind].
      assert (Ea : a == inject_Z n * default_threshold).
      { apply Qle_antisym; [exact Hle|]. apply Hge; [exact Hr|apply Qle_refl]. }
      rewrite (int_floor a Ha0), int_floor by now apply Qlt_le_weak.
      now rewrite Ea.
Qed.

Lemma default_threshold_product_exact_witness :
  identify_low_high_sales_float eight_sales (PyFloat.Finite default_threshold)
  = inr (identify_low_high_sales eight_sales default_threshold).
Proof.
  apply (default_threshold_product_exact eight_sales).
  vm_compute. reflexivity.
Defined.

(** [int] of a whole number is that number. *)
Lemma int_of_integer (x : Q) (k : Z) : x == inject_Z k -> Py.int x = k.
Proof.
  destruct x as [a b]. unfold Qeq, Py.int. simpl. intros H.
  rewrite Z.mul_1_r in H. rewrite H. apply Z.quot_mul. discriminate.
Qed.

(** Every count is the count of some exact threshold: [k / n] on a series
    of [n >= 1] points. *)
Lemma exact_threshold_of_cut (series : list Point) (k : Z) :
  (series = [] -> k = 0%Z) ->
  exists t, cut series t = k /\
    ((0 <= 2 * k <= Z.of_nat (length series))%Z -> 0 <= t /\ t <= 1 # 2).
Proof.
  intros Hk. destruct series as [|p l].
  - exists 0. rewrite (Hk eq_refl). split; [reflexivity|].
    intros _. split; discriminate.
  - set (n := Z.of_nat (length (p :: l))).
    assert (Hn : (1 <= n)%Z) by (unfold n; simpl; lia).
    assert (Hn0 : 0 < inject_Z n).
    { change 0 with (inject_Z 0). rewrite <- Zlt_Qlt. lia. }
    exists (inject_Z k / inject_Z n). split.
    + unfold cut. fold n. apply int_of_integer. field.
      intros H. rewrite H in Hn0. discriminate.
    + intros [H0 H2]. split.
      * apply Qle_shift_div_l; [exact Hn0|]. rewrite Qmult_0_l.
        change 0 with (inject_Z 0). rewrite <- Zle_Qle. lia.
      * apply Qle_shift_div_r; [exact Hn0|].
        assert (E : (1 # 2) * inject_Z n == inject_Z n / inject_Z 2)
          by (unfold inject_Z; field).
        rewrite E. apply Qle_shift_div_l; [reflexivity|].
        rewrite <- inject_Z_mult, <- Zle_Qle. lia.
Qed.

Lemma cut_float_empty (threshold : PyFloat.float) (k : Z) :
  cut_float [] threshold = inr k -> k = 0%Z.
Proof.
  unfold cut_float. change (PyFloat.of_int (Z.of_nat (length (@nil Point))))
    with (inr (PyFloat.Finite 0) : Result PyFloat.float).
  cbn [bind]. destruct threshold as [y|s|]; cbn [PyFloat.mul].
  - rewrite round_zero by ring. cbn [PyFloat.int]. now intros [= <-].
  - change (Qcompare 0 0) with Eq. discriminate.
  - discriminate.
Qed.

(** X24: whenever the float evaluation returns, it returns what the exact
    evaluation returns at some exact threshold: the float arithmetic only
    chooses the count. *)
Theorem float_evaluation_is_an_exact_one
    (series : list Point) (threshold : PyFloat.float)
    (slices : list Point * list Point) :
  identify_low_high_sales_float series threshold = inr slices ->
  exists t : Q, slices = identify_low_high_sales series t.
Proof.
  rewrite identify_float_cut.
  destruct (cut_float series threshold) as [e|k] eqn:Ek; [discriminate|].
  cbn [bind]. intros [= <-].
  destruct (exact_threshold_of_cut series k) as (t & Ht & _).
  { intros ->. exact (cut_float_empty threshold k Ek). }
  exists t. now rewrite identify_low_high_sales_cut, Ht.
Qed.

Lemma float_evaluation_is_an_exact_one_witness :
  exists t : Q, ([(60%Z, 1)], [(0%Z, 3)]) = identify_low_high_sales three_sales t.
Proof.
  apply (float_evaluation_is_an_exact_one three_sales float_third).
  reflexivity.
Defined.

(** With a float threshold from zero to a half, on fewer than 2^53 points,
    the count is at most half of the length. *)
Lemma cut_float_at_most_half (series : list Point) (threshold : Q) :
  0 <= threshold -> threshold <= 1 # 2 ->
  (Z.of_nat (length series) < 2 ^ 53)%Z ->
  exists k, cut_float series (PyFloat.Finite threshold) = inr k /\
            (0 <= 2 * k <= Z.of_nat (length series))%Z.
Proof.
  intros H0 Hh Hn. rewrite cut_float_product by exact Hn.
  set (n := Z.of_nat (length series)) in *.
  assert (Hn0 : 0 <= inject_Z n).
  { change 0 with (inject_Z 0). rewrite <- Zle_Qle. lia. }
  assert (Hx0 : 0 <= inject_Z n * threshold) by now apply Qmult_le_0_compat.
  destruct (Qle_lt_or_eq _ _ Hx0) as [Hpos|Hz].
  - assert (Hnpos : (0 < n)%Z).
    { destruct (Z.eq_dec n 0) as [E|E]; [|lia]. exfalso.
      rewrite E in Hpos. change (inject_Z 0) with 0 in Hpos.
      rewrite Qmult_0_l in Hpos. discriminate. }
    assert (Hhalf : inject_Z n * threshold <= inject_Z n * 2 ^ (-1)).
    { rewrite !(Qmult_comm (inject_Z n)).
      apply Qmult_le_compat_r; assumption. }
    destruct (round_positive _ _ Hpos Hhalf) as (a & -> & Ha0 & Ha & _).
    + exists n, (-1)%Z. split; [lia|]. split; [lia|]. reflexivity.
    + eapply Qle_lt_trans; [|apply (below_overflow n); lia].
      rewrite <- (Qmult_1_r (inject_Z n)) at 2.
      rewrite !(Qmult_comm (inject_Z n)).
      apply Qmult_le_compat_r; [discriminate|exact Hn0].
    + exists (Py.int a). split; [reflexivity|].
      rewrite int_floor by exact Ha0. split.
      * assert (H : (Qfloor 0 <= Qfloor a)%Z) by now apply Qfloor_resp_le.
        change (Qfloor 0) with 0%Z in H. lia.
      * assert (H : inject_Z (2 * Qfloor a) <= inject_Z n).
        { rewrite inject_Z_mult.
          apply Qle_trans with (inject_Z 2 * (inject_Z n * 2 ^ (-1))).
          - apply Qmult_le_l; [reflexivity|].
            eapply Qle_trans; [apply Qfloor_le|exact Ha].
          - assert (E : inject_Z 2 * (inject_Z n * 2 ^ (-1)) == inject_Z n)
              by (change (2 ^ (-1)) with (/ 2); unfold inject_Z; field).
            rewrite E. apply Qle_refl. }
        now rewrite <- Zle_Qle in H.
  - exists 0%Z. rewrite round_zero by (symmetry; exact Hz).
    split; [reflexivity|]. lia.
Qed.

(** X23: with a float threshold from zero to a half, on a series of fewer
    than 2^53 points, the float evaluation raises nothing and returns what
    the exact evaluation returns at an exact threshold that also lies
    between zero and a half. *)
Theorem float_threshold_up_to_half_is_exact_one
    (series : list Point) (threshold : Q) :
  0 <= threshold -> threshold <= 1 # 2 ->
  (Z.of_nat (length series) < 2 ^ 53)%Z ->
  exists t : Q,
    0 <= t /\ t <= 1 # 2 /\
    identify_low_high_sales_float series (PyFloat.Finite threshold)
    = inr (identify_low_high_sales series t).
Proof.
  intros H0 Hh Hn.
  destruct (cut_float_at_most_half series threshold H0 Hh Hn) as (k & Ek & Hk).
  destruct (exact_threshold_of_cut series k) as (t & Ht & Hrange).
  { intros ->. exact (cut_float_empty _ k Ek). }
  destruct (Hrange Hk) as [Ht0 Hth].
  exists t. split; [exact Ht0|]. split; [exact Hth|].
  now rewrite identify_float_cut, Ek, identify_low_high_sales_cut, Ht.
Qed.

Lemma float_threshold_up_to_half_is_exact_one_witness :
  exists t : Q,
    0 <= t /\ t <= 1 # 2 /\
    identify_low_high_sales_float eight_sales
      (PyFloat.Finite (5404319552844595 # 18014398509481984))
    = inr (identify_low_high_sales eight_sales t).
Proof.
  apply (float_threshold_up_to_half_is_exact_one eight_sales
           (5404319552844595 # 18014398509481984)).
  - vm_compute. discriminate.
  - vm_compute. discriminate.
  - vm_compute. reflexivity.
Defined.

End FloatThreshold.

(** ** More on reports *)

Section ReportsMore.

Lemma prefix_occurs (n h : string) :
  String.prefix n h = true <-> exists post, h = (n ++ post)%string.
Proof.
  revert h. induction n as [|c n IH]; intros h; simpl.
  - split; [intros _; now exists h|intros _; now destruct h].
  - destruct h as [|d h]; simpl.
    + split; [discriminate|]. intros [post H]. discriminate.
    + destruct (Ascii.ascii_dec c d) as [->|Hne].
      * rewrite IH. split; intros [post H]; exists post.
        -- now rewrite H.
        -- now injection H.
      * split; [discriminate|]. intros [post H]. injection H as H1 H2.
        congruence.
Qed.

(** [needle in hay] holds exactly when [hay] is some text, [needle], some
    text. *)
Lemma contains_occurs (n h : string) :
  Py.contains n h = true <-> occurs n h.
Proof.
  unfold occurs. induction h as [|d h IH]; cbn [Py.contains].
  - rewrite orb_false_r, prefix_occurs. split.
    + intros [post H]. exists EmptyString, post. exact H.
    + intros ([|c pre] & post & H); [now exists post|discriminate].
  - rewrite orb_true_iff, prefix_occurs, IH. split.
    + intros [[post H]|(pre & post & H)].
      * exists EmptyString, post. exact H.
      * exists (String d pre), post. simpl. now rewrite H.
    + intros ([|c pre] & post & H).
      * left. now exists post.
      * right. simpl in H. injection H as _ H. now exists pre, post.
Qed.

Lemma lower_char_plain (c : ascii) :
  plain_char (Py.lower_char (if Ascii.eqb c " " then "_" else c)) = true.
Proof.
  destruct c as [[] [] [] [] [] [] [] []]; reflexivity.
Qed.

Lemma string_forall_app (P : ascii -> bool) (s t : string) :
  string_forall P (s ++ t) = string_forall P s && string_forall P t.
Proof.
  induction s as [|c s IH]; simpl; [reflexivity|].
  now rewrite IH, andb_assoc.
Qed.

Lemma lower_replace_plain (s : string) :
  string_forall plain_char (Py.lower (Py.replace_space s)) = true.
Proof.
  induction s as [|c s IH]; simpl; [reflexivity|].
  now rewrite lower_char_plain, IH.
Qed.

(** The parts of a report that do not depend on the branch. *)
Lemma print_decomposition_fixed_parts (res : DecomposeResult) (title : string)
    (rep : Report) :
  print_decomposition res title = inr rep ->
  heading rep = title /\
  figure rep = res /\
  figure_file rep = (Py.lower (Py.replace_space title) ++ ".png")%string /\
  (low_sales rep, high_sales rep)
  = identify_low_high_sales (observed res) default_threshold.
Proof.
  unfold print_decomposition.
  destruct (identify_low_high_sales (observed res) default_threshold)
    as [lows highs].
  destruct (branch_of_title title) as [b|]; cbn [bind].
  - set (s := match branch_component b with
              | TrendComponent => dropna (trend res)
              | SeasonalComponent => seasonal res
              end).
    destruct (idxmax s) as [e|hi]; cbn [bind]; [discriminate|].
    destruct (idxmin s) as [e|lo]; cbn [bind]; [discriminate|].
    intros H. injection H as <-. repeat split.
  - intros H. injection H as <-. repeat split.
Qed.

(** X6: the figure of a report is saved under the title, spaces turned into
    underscores and ASCII letters into lower case, with ".png" appended: no
    space and no upper-case ASCII letter is left in the file name. *)
Theorem figure_file_is_plain (res : DecomposeResult) (title : string)
    (rep : Report) :
  print_decomposition res title = inr rep ->
  figure_file rep = (Py.lower (Py.replace_space title) ++ ".png")%string /\
  string_forall plain_char (figure_file rep) = true.
Proof.
  intros H.
  destruct (print_decomposition_fixed_parts res title rep H) as (_ & _ & Hf & _).
  rewrite Hf. split; [reflexivity|].
  now rewrite string_forall_app, lower_replace_plain.
Qed.

Lemma figure_file_is_plain_witness :
  figure_file
    (mkReport "Some Title" [(1440%Z, 4)] [(0%Z, 9)] "some_title.png"
       sample_result None)
  = (Py.lower (Py.replace_space "Some Title") ++ ".png")%string /\
  string_forall plain_char
    (figure_file
       (mkReport "Some Title" [(1440%Z, 4)] [(0%Z, 9)] "some_title.png"
          sample_result None))
  = true.
Proof.
  apply (figure_file_is_plain sample_result "Some Title"). reflexivity.
Defined.

Lemma idxmax_error (l : list Point) :
  (exists e, idxmax l = inl e) <-> l = [].
Proof.
  unfold idxmax. destruct l as [|p l]; simpl.
  - split; [reflexivity|]. intros _. eexists. reflexivity.
  - split; [intros [e H]; discriminate|discriminate].
Qed.

Lemma idxmin_error (l : list Point) :
  (exists e, idxmin l = inl e) <-> l = [].
Proof.
  unfold idxmin. destruct l as [|p l]; simpl.
  - split; [reflexivity|]. intros _. eexists. reflexivity.
  - split; [intros [e H]; discriminate|discriminate].
Qed.

(** X7: when the title selects a branch whose series (the defined trend
    points, or the seasonal points for the seasonal branch) is empty, the
    call raises and returns no summary. *)
Theorem print_decomposition_raises_on_empty_branch
    (res : DecomposeResult) (title : string) (r : Resolution) :
  branch_of_title title = Some r ->
  narrated res (branch_component r) = [] ->
  exists e, print_decomposition res title = inl e.
Proof.
  intros Hb He. unfold print_decomposition. unfold narrated in He.
  destruct (identify_low_high_sales (observed res) default_threshold)
    as [lows highs].
  rewrite Hb. cbn [bind].
  set (s := match branch_component r with
            | TrendComponent => dropna (trend res)
            | SeasonalComponent => seasonal res
            end).
  assert (Hs : s = []) by (unfold s; destruct (branch_component r); exact He).
  rewrite Hs. eexists. reflexivity.
Qed.

Lemma print_decomposition_raises_on_empty_branch_witness :
  exists e, print_decomposition trendless_result "Monthly Analysis" = inl e.
Proof.
  apply (print_decomposition_raises_on_empty_branch trendless_result
           "Monthly Analysis" Monthly); reflexivity.
Defined.

(** X8: the branch a title selects names a text that occurs in the title,
    and no branch is selected exactly when none of the five texts occurs. *)
Theorem branch_of_title_occurs (title : string) :
  (forall r, branch_of_title title = Some r -> occurs (title_of r) title) /\
  (branch_of_title title = None <->
   forall r, ~ occurs (title_of r) title).
Proof.
  unfold branch_of_title.
  destruct (Py.contains "Hourly Analysis" title) eqn:EH.
  { apply contains_occurs in EH. split.
    - now intros r [= <-].
    - split; [discriminate|]. intros H. now destruct (H Hourly). }
  destruct (Py.contains "Daily Analysis" title) eqn:ED.
  { apply contains_occurs in ED. split.
    - now intros r [= <-].
    - split; [discriminate|]. intros H. now destruct (H Daily). }
  destruct (Py.contains "Weekly Analysis" title) eqn:EW.
  { apply contains_occurs in EW. split.
    - now intros r [= <-].
    - split; [discriminate|]. intros H. now destruct (H Weekly). }
  destruct (Py.contains "Monthly Analysis" title) eqn:EM.
  { apply contains_occurs in EM. split.
    - now intros r [= <-].
    - split; [discriminate|]. intros H. now destruct (H Monthly). }
  destruct (Py.contains "Seasonal Analysis" title) eqn:ES.
  { apply contains_occurs in ES. split.
    - now intros r [= <-].
    - split; [discriminate|]. intros H. now destruct (H Seasonal). }
  split; [discriminate|]. split; [|reflexivity].
  intros _ r Hr. apply contains_occurs in Hr.
  destruct r; simpl in Hr; congruence.
Qed.

(** On a result without any defined trend point the monthly title fails and
    the seasonal title still yields a report. *)
Example print_decomposition_trendless :
  print_decomposition trendless_result "Monthly Analysis"
  = inl (ValueError "attempt to get argmax of an empty sequence") /\
  exists rep, print_decomposition trendless_result "Seasonal Analysis"
              = inr rep.
Proof. split; [reflexivity|]. eexists. reflexivity. Qed.

End ReportsMore.

(** ** Ties between extremes *)

Section FirstOccurrence.

Variable better : Q -> Q -> bool.
(** [beats a b]: [b] beats [a]; [keeps a b]: [a] does not beat [b]. *)
Variables beats keeps : Q -> Q -> Prop.
Hypothesis better_true : forall a b, better a b = true -> beats b a.
Hypothesis better_false : forall a b, better a b = false -> keeps a b.
Hypothesis beats_trans : forall a b c, beats a b -> beats b c -> beats a c.
Hypothesis keeps_beats_trans : forall a b c, keeps a b -> beats b c -> beats a c.

Lemma fold_best_split (l pre mid : list Point) (p0 : Point) :
  Forall (fun q => beats (snd q) (snd p0)) pre ->
  Forall (fun q => keeps (snd q) (snd p0)) mid ->
  exists l1 l2,
    pre ++ p0 :: mid ++ l
    = l1 ++ fold_left (fun best q => if better (snd q) (snd best) then q else best)
                      l p0 :: l2 /\
    Forall (fun q => beats (snd q)
                       (snd (fold_left (fun best q =>
                                          if better (snd q) (snd best)
                                          then q else best) l p0))) l1 /\
    Forall (fun q => keeps (snd q)
                       (snd (fold_left (fun best q =>
                                          if better (snd q) (snd best)
                                          then q else best) l p0))) l2.
Proof.
  revert pre mid p0. induction l as [|q l IH]; intros pre mid p0 Hpre Hmid.
  - exists pre, mid. simpl. rewrite app_nil_r. auto.
  - simpl. destruct (better (snd q) (snd p0)) eqn:E.
    + apply better_true in E.
      destruct (IH (pre ++ p0 :: mid) [] q) as (l1 & l2 & Heq & H1 & H2).
      * apply Forall_app. split.
        -- eapply Forall_impl; [|exact Hpre]. intros a Ha.
           cbv beta in *. eapply beats_trans; eassumption.
        -- constructor; [exact E|].
           eapply Forall_impl; [|exact Hmid]. intros a Ha.
           cbv beta in *. eapply keeps_beats_trans; eassumption.
      * constructor.
      * exists l1, l2. split; [|now split].
        rewrite <- Heq. simpl. rewrite <- !app_assoc. reflexivity.
    + apply better_false in E.
      destruct (IH pre (mid ++ [q]) p0) as (l1 & l2 & Heq & H1 & H2).
      * exact Hpre.
      * apply Forall_app. split; [exact Hmid|]. constructor; [exact E|constructor].
      * exists l1, l2. split; [|now split].
        rewrite <- Heq. rewrite <- !app_assoc. reflexivity.
Qed.

Lemma first_best_split (l : list Point) (p : Point) :
  first_best better l = Some p ->
  exists l1 l2,
    l = l1 ++ p :: l2 /\
    Forall (fun q => beats (snd q) (snd p)) l1 /\
    Forall (fun q => keeps (snd q) (snd p)) l2.
Proof.
  destruct l as [|p0 l]; [discriminate|]. simpl. intros [= <-].
  destruct (fold_best_split l [] [] p0) as (l1 & l2 & Heq & H1 & H2);
    try constructor.
  exists l1, l2. simpl in Heq. auto.
Qed.

End FirstOccurrence.

Section Ties.

Lemma Qgt_bool_lt (a b : Q) : Qgt_bool a b = true -> b < a.
Proof.
  unfold Qgt_bool. intros H. apply negb_true_iff in H.
  apply Qnot_le_lt. intro L. apply Qle_bool_iff in L. congruence.
Qed.

Lemma Qlt_bool_lt (a b : Q) : Qlt_bool a b = true -> a < b.
Proof. unfold Qlt_bool. intros H. now apply (Qgt_bool_lt b a). Qed.

Lemma Qlt_bool_ge (a b : Q) : Qlt_bool a b = false -> b <= a.
Proof. unfold Qlt_bool. intros H. now apply (Qgt_bool_false b a). Qed.

(** X9: [idxmax] answers with the label of the first point of largest
    value: every earlier point is strictly smaller, every later one at most
    as large; [idxmin] likewise with the first point of smallest value. *)
Theorem idxmax_idxmin_first_occurrence (l : list Point) (ts : Timestamp) :
  (idxmax l = inr ts ->
   exists l1 v l2,
     l = l1 ++ (ts, v) :: l2 /\
     Forall (fun q => snd q < v) l1 /\ Forall (fun q => snd q <= v) l2) /\
  (idxmin l = inr ts ->
   exists l1 v l2,
     l = l1 ++ (ts, v) :: l2 /\
     Forall (fun q => v < snd q) l1 /\ Forall (fun q => v <= snd q) l2).
Proof.
  split.
  - unfold idxmax. destruct (first_best Qgt_bool l) as [[t v]|] eqn:E;
      [|discriminate].
    intros [= <-].
    destruct (first_best_split Qgt_bool Qlt Qle Qgt_bool_lt Qgt_bool_false
                Qlt_trans Qle_lt_trans l (t, v) E) as (l1 & l2 & H & H1 & H2).
    now exists l1, v, l2.
  - unfold idxmin. destruct (first_best Qlt_bool l) as [[t v]|] eqn:E;
      [|discriminate].
    intros [= <-].
    destruct (first_best_split Qlt_bool (fun a b => b < a) (fun a b => b <= a)
                Qlt_bool_lt Qlt_bool_ge
                (fun a b c H1 H2 => Qlt_trans _ _ _ H2 H1)
                (fun a b c H1 H2 => Qlt_le_trans _ _ _ H2 H1)
                l (t, v) E) as (l1 & l2 & H & H1 & H2).
    now exists l1, v, l2.
Qed.

End Ties.

(** ** More on decomposition *)

Section DecompositionShape.

Import Statsmodels.

Lemma zip_with_length {A B C : Type} (g : A -> B -> C)
    (l1 : list A) (l2 : list B) :
  length (zip_with g l1 l2) = Nat.min (length l1) (length l2).
Proof.
  revert l2. induction l1 as [|a l1 IH]; intros [|b l2]; simpl; auto.
Qed.

Lemma map_fst_combine_same {A B : Type} (l1 : list A) (l2 : list B) :
  length l2 = length l1 -> map fst (combine l1 l2) = l1.
Proof.
  revert l2. induction l1 as [|a l1 IH]; intros [|b l2]; simpl;
    try discriminate; try reflexivity.
  intros [= H]. now rewrite IH.
Qed.

Lemma map_snd_combine_same {A B : Type} (l1 : list A) (l2 : list B) :
  length l2 = length l1 -> map snd (combine l1 l2) = l2.
Proof.
  revert l2. induction l1 as [|a l1 IH]; intros [|b l2]; simpl;
    try discriminate; try reflexivity.
  intros [= H]. now rewrite IH.
Qed.

Lemma decompose_series_effective (x : Series) (model : Model)
    (period : option nat) :
  decompose_series x model period
  = seasonal_decompose x model (effective_period x period).
Proof. reflexivity. Qed.

Lemma tiled_length (pa : list Q) (n p : nat) :
  length pa = p -> (1 <= p)%nat ->
  length (firstn n (tile pa (n / p + 1))) = n.
Proof.
  intros <- Hp. rewrite length_firstn, tile_length.
  pose proof (Nat.div_mod_eq n (length pa)).
  pose proof (Nat.mod_upper_bound n (length pa)). nia.
Qed.

(** The pieces of a successful decomposition, for either model. *)
Lemma seasonal_decompose_parts (x : Series) (model : Model) (period : nat)
    (d : DecomposeResult) :
  (1 <= period)%nat ->
  seasonal_decompose x model period = inr d ->
  (2 * period <= len x)%nat /\
  observed d = points x /\
  exists tr pa rs,
    trend d = combine (map fst (points x)) tr /\
    seasonal d
    = combine (map fst (points x))
        (firstn (len x) (tile pa (len x / period + 1))) /\
    resid d = combine (map fst (points x)) rs /\
    length tr = len x /\ length pa = period /\ length rs = len x /\
    (model = Additive -> Qsum pa == 0).
Proof.
  intros Hp. unfold seasonal_decompose, len. cbv zeta.
  set (xs := map snd (points x)).
  assert (Hlen : length xs = length (points x)) by apply length_map.
  destruct (match model with
            | Additive => false
            | Multiplicative => existsb (fun v => Qle_bool v 0) xs
            end); [discriminate|].
  destruct (Nat.ltb_spec (length xs) (2 * period)) as [Hlt|Hge];
    [discriminate|].
  destruct (Nat.eqb_spec period 0) as [Hz|_]; [lia|].
  rewrite Hlen in *.
  pose proof (half_spec period) as [Hd Hm].
  pose proof (filt_length period Hp) as HL.
  assert (Htr : length (convolution_filter xs (filt period))
                = length (points x)).
  { rewrite (convolution_filter_length xs _ (period / 2) HL); lia. }
  intros H. injection H as <-. cbn [observed trend seasonal resid].
  split; [exact Hge|]. split; [reflexivity|].
  eexists. eexists. eexists.
  split; [reflexivity|]. split; [reflexivity|]. split; [reflexivity|].
  split; [exact Htr|].
  assert (Hpa : forall (g : Q -> Q) l, length (map g (seasonal_mean l period))
                                       = period).
  { intros g l. now rewrite length_map, seasonal_mean_length. }
  split; [destruct model; apply Hpa|]. split.
  - destruct model; rewrite !zip_with_length.
    + rewrite Hlen, Htr, (tiled_length _ _ period) by (auto; lia). lia.
    + rewrite Hlen, Htr, (tiled_length _ _ period) by (auto; lia). lia.
  - intros ->.
    set (pa0 := seasonal_mean _ period).
    assert (Hp0 : length pa0 = period) by apply seasonal_mean_length.
    assert (Hsub : forall c l,
               Qsum (map (fun a => a - c) l)
               == Qsum l - inject_Z (Z.of_nat (length l)) * c).
    { intros c l. induction l as [|a l IH].
      - simpl. ring.
      - cbn [map Qsum fold_right length]. fold (Qsum (map (fun a0 => a0 - c) l)).
        fold (Qsum l). rewrite IH. rewrite Nat2Z.inj_succ. unfold Z.succ.
        rewrite inject_Z_plus. ring. }
    rewrite Hsub. unfold Qmean. rewrite Hp0. field.
    intros H0. unfold Qeq in H0. simpl in H0. lia.
Qed.

(** X10: under the additive model and with a period of two or more, a call
    succeeds exactly when the series holds two periods, where a missing
    period stands for 365 on a daily index and for 12 otherwise; a call
    that fails raises a ValueError. *)
Theorem decompose_series_succeeds_iff (x : Series) (period : option nat) :
  (forall p, period = Some p -> 2 <= p)%nat ->
  ((exists d, decompose_series x Additive period = inr d) <->
   (2 * match period with
        | Some p => p
        | None => match freq x with
                  | Some FreqD => 365
                  | _ => 12
                  end
        end <= len x)%nat) /\
  forall e, decompose_series x Additive period = inl e ->
            exists msg, e = ValueError msg.
Proof.
  intros Hp.
  unfold decompose_series, seasonal_decompose, len. cbv beta iota zeta.
  assert (Hl : length (map snd (points x)) = length (points x))
    by apply length_map.
  rewrite Hl. clear Hl.
  set (p := match period with
            | Some p => p
            | None => match freq x with
                      | Some FreqD => 365%nat
                      | _ => 12%nat
                      end
            end).
  assert (Hp2 : (2 <= p)%nat).
  { unfold p. destruct period as [q|]; [now apply Hp|].
    destruct (freq x) as [[]|]; lia. }
  destruct (_ <? _)%nat eqn:E.
  - apply Nat.ltb_lt in E. split.
    + split; [intros [d H]; discriminate|lia].
    + intros e [= <-]. eexists. reflexivity.
  - apply Nat.ltb_ge in E.
    destruct (Nat.eqb_spec p 0) as [Hz|_]; [lia|]. split.
    + split; [intros _; exact E|]. intros _. eexists. reflexivity.
    + intros e H. discriminate.
Qed.

Lemma decompose_series_succeeds_iff_witness :
  ((exists d, decompose_series two_weeks Additive (Some 7%nat) = inr d) <->
   (2 * 7 <= len two_weeks)%nat) /\
  forall e, decompose_series two_weeks Additive (Some 7%nat) = inl e ->
            exists msg, e = ValueError msg.
Proof.
  apply (decompose_series_succeeds_iff two_weeks (Some 7%nat)).
  intros p [= <-]. lia.
Defined.

(** X11: the four components of a decomposition, under either model, carry
    the timestamps of the input, in the same order: the observed series is
    the input itself and trend, seasonal and residual have one entry per
    input point. *)
Theorem decomposition_components_aligned (x : Series) (model : Model)
    (period : option nat) (d : DecomposeResult) :
  period <> Some 0%nat ->
  decompose_series x model period = inr d ->
  observed d = points x /\
  map fst (trend d) = map fst (points x) /\
  map fst (seasonal d) = map fst (points x) /\
  map fst (resid d) = map fst (points x).
Proof.
  intros Hp0. rewrite decompose_series_effective. intros H.
  assert (Hp : (1 <= effective_period x period)%nat).
  { destruct period as [[|p]|]; simpl; [congruence|lia|].
    destruct (freq x) as [[]|]; lia. }
  destruct (seasonal_decompose_parts x model _ d Hp H)
    as (Hn & Hobs & tr & pa & rs & Ht & Hs & Hr & Ltr & Lpa & Lrs & _).
  split; [exact Hobs|]. rewrite Ht, Hs, Hr. unfold len in *.
  repeat split; apply map_fst_combine_same; rewrite length_map.
  - exact Ltr.
  - apply tiled_length; [exact Lpa|lia].
  - exact Lrs.
Qed.

Lemma decomposition_components_aligned_witness :
  observed sample_decomposition = points two_weeks /\
  map fst (trend sample_decomposition) = map fst (points two_weeks) /\
  map fst (seasonal sample_decomposition) = map fst (points two_weeks) /\
  map fst (resid sample_decomposition) = map fst (points two_weeks).
Proof.
  apply (decomposition_components_aligned two_weeks Additive (Some 7%nat)).
  - discriminate.
  - reflexivity.
Defined.

Lemma nth_error_tile (pa : list Q) (k i : nat) :
  (1 <= length pa)%nat -> (i < k * length pa)%nat ->
  nth_error (tile pa k) i = nth_error pa (i mod length pa).
Proof.
  intros Hp. unfold tile. revert i. induction k as [|k IH]; intros i Hi;
    [lia|].
  cbn [repeat concat].
  destruct (Nat.lt_ge_cases i (length pa)) as [Hlt|Hge].
  - rewrite nth_error_app1 by exact Hlt. now rewrite Nat.mod_small.
  - rewrite nth_error_app2 by exact Hge. rewrite IH by lia.
    replace i with ((i - length pa) + 1 * length pa)%nat at 2 by lia.
    now rewrite Nat.Div0.mod_add.
Qed.

Lemma firstn_tile_one (pa : list Q) (k : nat) :
  firstn (length pa) (tile pa (k + 1)) = pa.
Proof.
  unfold tile. rewrite Nat.add_comm. cbn [repeat concat Nat.add].
  rewrite <- (Nat.add_0_r (length pa)) at 1.
  now rewrite firstn_app_2, firstn_0, app_nil_r.
Qed.

(** X12: the seasonal component repeats with the period: its value at a
    position is its value one period earlier, under either model. *)
Theorem seasonal_component_periodic (x : Series) (model : Model)
    (period : option nat) (d : DecomposeResult) (i : nat) :
  period <> Some 0%nat ->
  decompose_series x model period = inr d ->
  (i + effective_period x period < len x)%nat ->
  nth_error (map snd (seasonal d)) (i + effective_period x period)
  = nth_error (map snd (seasonal d)) i /\
  nth_error (map snd (seasonal d)) i <> None.
Proof.
  intros Hp0. rewrite decompose_series_effective. intros H Hi.
  set (p := effective_period x period) in *.
  assert (Hp : (1 <= p)%nat).
  { unfold p. destruct period as [[|q]|]; simpl; [congruence|lia|].
    destruct (freq x) as [[]|]; lia. }
  destruct (seasonal_decompose_parts x model _ d Hp H)
    as (Hn & _ & tr & pa & rs & _ & Hs & _ & _ & Lpa & _ & _).
  rewrite Hs. unfold len in *.
  rewrite map_snd_combine_same
    by (rewrite length_map; now apply tiled_length).
  rewrite !nth_error_firstn.
  destruct (Nat.ltb_spec (i + p) (length (points x))); [|lia].
  destruct (Nat.ltb_spec i (length (points x))); [|lia].
  pose proof (Nat.div_mod_eq (length (points x)) p).
  pose proof (Nat.mod_upper_bound (length (points x)) p).
  rewrite !nth_error_tile by (rewrite Lpa; nia).
  rewrite Lpa. replace (i + p)%nat with (i + 1 * p)%nat by lia.
  rewrite Nat.Div0.mod_add. split; [reflexivity|].
  apply nth_error_Some. rewrite Lpa. apply Nat.mod_upper_bound. lia.
Qed.

Lemma seasonal_component_periodic_witness :
  nth_error (map snd (seasonal sample_decomposition))
    (2 + effective_period two_weeks (Some 7%nat))
  = nth_error (map snd (seasonal sample_decomposition)) 2 /\
  nth_error (map snd (seasonal sample_decomposition)) 2 <> None.
Proof.
  apply (seasonal_component_periodic two_weeks Additive (Some 7%nat)).
  - discriminate.
  - reflexivity.
  - vm_compute. lia.
Defined.

(** X13: under the additive model the seasonal figures of one period add up
    to zero. *)
Theorem seasonal_component_sums_to_zero (x : Series) (period : option nat)
    (d : DecomposeResult) :
  period <> Some 0%nat ->
  decompose_series x Additive period = inr d ->
  Qsum (firstn (effective_period x period) (map snd (seasonal d))) == 0.
Proof.
  intros Hp0. rewrite decompose_series_effective. intros H.
  set (p := effective_period x period) in *.
  assert (Hp : (1 <= p)%nat).
  { unfold p. destruct period as [[|q]|]; simpl; [congruence|lia|].
    destruct (freq x) as [[]|]; lia. }
  destruct (seasonal_decompose_parts x Additive _ d Hp H)
    as (Hn & _ & tr & pa & rs & _ & Hs & _ & _ & Lpa & _ & Hz).
  rewrite Hs. unfold len in *.
  rewrite map_snd_combine_same
    by (rewrite length_map; now apply tiled_length).
  rewrite firstn_firstn, Nat.min_l by lia.
  rewrite <- Lpa at 1. rewrite firstn_tile_one. now apply Hz.
Qed.

Lemma seasonal_component_sums_to_zero_witness :
  Qsum (firstn (effective_period two_weeks (Some 7%nat))
          (map snd (seasonal sample_decomposition))) == 0.
Proof.
  apply (seasonal_component_sums_to_zero two_weeks (Some 7%nat)).
  - discriminate.
  - reflexivity.
Defined.

End DecompositionShape.

(** ** Calendar facts *)

Section CalendarFacts.

Local Open Scope Z_scope.

Lemma all_from_spec (P : Z -> bool) (fuel : nat) (d : Z) :
  all_from fuel d P = true ->
  forall i, d <= i < d + Z.of_nat fuel -> P i = true.
Proof.
  revert d. induction fuel as [|fuel IH]; intros d H i Hi; [lia|].
  cbn [all_from] in H. apply andb_true_iff in H. destruct H as [Hd Hrest].
  destruct (Z.eq_dec i d) as [->|Hne]; [exact Hd|].
  apply (IH (d + 1) Hrest). lia.
Qed.

Lemma cycle_months_checked :
  all_from (Z.to_nat 4800) 0
    (last_day_check Calendar.month_index Calendar.first_day_of_month) = true.
Proof. vm_compute. reflexivity. Qed.

Lemma last_day_check_spec (month_of first_day : Z -> Z) (k : Z) :
  last_day_check month_of first_day k = true ->
  month_of (Calendar.minutes_per_day * (first_day (k + 1) - 1)) = k.
Proof. unfold last_day_check. apply Z.eqb_eq. Qed.

(** The month of a day of the cycle: twelve for each year before its own,
    plus the month within the year, which runs from March. *)
Lemma month_of_cycle_day_form (doe : Z) :
  0 <= doe < 146097 ->
  month_of_cycle_day doe
  = 12 * year_of_cycle_day doe
    + (5 * (doe - year_start (year_of_cycle_day doe)) + 2) / 153 + 2.
Proof.
  intros H. unfold month_of_cycle_day, year_of_cycle_day, year_start. cbv zeta.
  set (yoe := (doe - doe / 1460 + doe / 36524 - doe / 146096) / 365).
  set (doy := doe - (365 * yoe + yoe / 4 - yoe / 100)).
  assert (Hdoy : 0 <= doy <= 365).
  { unfold doy, yoe. Z.div_mod_to_equations. lia. }
  set (mp := (5 * doy + 2) / 153).
  assert (Hmp : 0 <= mp <= 11) by (unfold mp; Z.div_mod_to_equations; lia).
  destruct (Z.ltb_spec mp 10).
  - destruct (Z.leb_spec (mp + 3) 2); lia.
  - destruct (Z.leb_spec (mp - 9) 2); lia.
Qed.

(** A day of the cycle lies in the year computed for it. *)
Lemma year_span (doe : Z) :
  0 <= doe < 146097 ->
  0 <= year_of_cycle_day doe <= 399 /\
  year_start (year_of_cycle_day doe) <= doe /\
  (doe < year_start (year_of_cycle_day doe + 1) \/ doe = 146096).
Proof.
  intros H. unfold year_of_cycle_day, year_start.
  Z.div_mod_to_equations. lia.
Qed.

Lemma year_step (r k : Z) :
  0 <= r -> 0 <= k <= 28 -> r + k < 146097 ->
  year_of_cycle_day r <= year_of_cycle_day (r + k) <= year_of_cycle_day r + 1.
Proof.
  intros H0 Hk H. unfold year_of_cycle_day. Z.div_mod_to_equations. lia.
Qed.

(** From one day of the cycle to the next the month number does not drop. *)
Lemma cycle_day_step (r : Z) :
  0 <= r < 146096 -> month_of_cycle_day r <= month_of_cycle_day (r + 1).
Proof.
  intros H. rewrite !month_of_cycle_day_form by lia.
  pose proof (year_span r ltac:(lia)) as (Hy & Hs & He).
  pose proof (year_span (r + 1) ltac:(lia)) as (Hy' & Hs' & He').
  pose proof (year_step r 1 ltac:(lia) ltac:(lia) ltac:(lia)) as Hst.
  set (y := year_of_cycle_day r) in *.
  set (y' := year_of_cycle_day (r + 1)) in *.
  assert (E : y' = y \/ y' = y + 1) by lia.
  destruct E as [E|E]; rewrite E in *; clear E; unfold year_start in *;
    Z.div_mod_to_equations; lia.
Qed.

(** Twenty-eight days later the month number is at most one more. *)
Lemma cycle_day_slow (r : Z) :
  0 <= r < 146069 ->
  month_of_cycle_day (r + 28) <= month_of_cycle_day r + 1.
Proof.
  intros H. rewrite !month_of_cycle_day_form by lia.
  pose proof (year_span r ltac:(lia)) as (Hy & Hs & He).
  pose proof (year_span (r + 28) ltac:(lia)) as (Hy' & Hs' & He').
  pose proof (year_step r 28 ltac:(lia) ltac:(lia) ltac:(lia)) as Hst.
  set (y := year_of_cycle_day r) in *.
  set (y' := year_of_cycle_day (r + 28)) in *.
  assert (E : y' = y \/ y' = y + 1) by lia.
  destruct E as [E|E]; rewrite E in *; clear E; unfold year_start in *;
    Z.div_mod_to_equations; lia.
Qed.

Lemma cycle_day_mono (r1 r2 : Z) :
  0 <= r1 <= r2 -> r2 < 146097 ->
  month_of_cycle_day r1 <= month_of_cycle_day r2.
Proof.
  intros [H0 H12] H2.
  replace r2 with (r1 + Z.of_nat (Z.to_nat (r2 - r1))) by lia.
  assert (Hb : r1 + Z.of_nat (Z.to_nat (r2 - r1)) < 146097) by lia.
  induction (Z.to_nat (r2 - r1)) as [|n IH].
  - rewrite Z.add_0_r. lia.
  - rewrite Nat2Z.inj_succ in *.
    replace (r1 + Z.succ (Z.of_nat n)) with (r1 + Z.of_nat n + 1) by lia.
    pose proof (cycle_day_step (r1 + Z.of_nat n)). lia.
Qed.

Lemma cycle_day_range (r : Z) :
  0 <= r < 146097 -> 2 <= month_of_cycle_day r <= 4801.
Proof.
  intros Hr.
  pose proof (cycle_day_mono 0 r). pose proof (cycle_day_mono r 146096).
  change (month_of_cycle_day 0) with 2 in *.
  change (month_of_cycle_day 146096) with 4801 in *. lia.
Qed.

(** The month of a timestamp: 4800 months for each whole cycle before its
    day, plus the month of the day within the cycle. *)
Lemma month_index_cycle (t : Timestamp) :
  Calendar.month_index t
  = 4800 * ((Calendar.day_of t + 719468) / 146097)
    + month_of_cycle_day ((Calendar.day_of t + 719468) mod 146097).
Proof.
  unfold Calendar.month_index, Calendar.civil_from_days, month_of_cycle_day.
  cbv zeta. rewrite Z.mod_eq by lia.
  set (z := Calendar.day_of t + 719468).
  replace (z - 146097 * (z / 146097)) with (z - z / 146097 * 146097) by ring.
  set (doe := z - z / 146097 * 146097).
  set (yoe := (doe - doe / 1460 + doe / 36524 - doe / 146096) / 365).
  set (doy := doe - (365 * yoe + yoe / 4 - yoe / 100)).
  set (mp := (5 * doy + 2) / 153).
  destruct (mp <? 10); destruct (_ <=? 2); ring.
Qed.

Lemma month_index_mono (t1 t2 : Timestamp) :
  t1 <= t2 -> Calendar.month_index t1 <= Calendar.month_index t2.
Proof.
  intros Ht. rewrite !month_index_cycle.
  assert (Hd : Calendar.day_of t1 + 719468 <= Calendar.day_of t2 + 719468).
  { unfold Calendar.day_of, Calendar.minutes_per_day.
    pose proof (Z.div_le_mono t1 t2 1440). lia. }
  set (z1 := Calendar.day_of t1 + 719468) in *.
  set (z2 := Calendar.day_of t2 + 719468) in *.
  pose proof (Z.div_le_mono z1 z2 146097 ltac:(lia) Hd) as He.
  pose proof (Z.mod_pos_bound z1 146097 ltac:(lia)) as B1.
  pose proof (Z.mod_pos_bound z2 146097 ltac:(lia)) as B2.
  pose proof (cycle_day_range _ B1). pose proof (cycle_day_range _ B2).
  destruct (Z.eq_dec (z1 / 146097) (z2 / 146097)) as [E|E].
  - rewrite E. pose proof (cycle_day_mono (z1 mod 146097) (z2 mod 146097)).
    pose proof (Z.div_mod z1 146097). pose proof (Z.div_mod z2 146097). lia.
  - lia.
Qed.

(** Twenty-eight days on, the month has advanced by one at most. *)
Lemma month_index_slow (t : Timestamp) :
  Calendar.month_index (t + 28 * 1440) <= Calendar.month_index t + 1.
Proof.
  rewrite !month_index_cycle.
  assert (Hd : Calendar.day_of (t + 28 * 1440) = Calendar.day_of t + 28).
  { unfold Calendar.day_of, Calendar.minutes_per_day. now rewrite Z.div_add. }
  rewrite Hd. set (z := Calendar.day_of t + 719468).
  replace (Calendar.day_of t + 28 + 719468) with (z + 28) by (unfold z; ring).
  pose proof (Z.mod_pos_bound z 146097 ltac:(lia)) as B.
  pose proof (Z.div_mod z 146097 ltac:(lia)) as Ez.
  set (e := z / 146097) in *. set (r := z mod 146097) in *.
  destruct (Z.lt_ge_cases (r + 28) 146097) as [Hin|Hout].
  - assert (Hq : (z + 28) / 146097 = e)
      by (symmetry; apply (Z.div_unique (z + 28) 146097 e (r + 28)); lia).
    assert (Hr : (z + 28) mod 146097 = r + 28)
      by (symmetry; apply (Z.mod_unique (z + 28) 146097 e (r + 28)); lia).
    rewrite Hq, Hr. pose proof (cycle_day_slow r). lia.
  - assert (Hq : (z + 28) / 146097 = e + 1)
      by (symmetry;
          apply (Z.div_unique (z + 28) 146097 (e + 1) (r + 28 - 146097)); lia).
    assert (Hr : (z + 28) mod 146097 = r + 28 - 146097)
      by (symmetry;
          apply (Z.mod_unique (z + 28) 146097 (e + 1) (r + 28 - 146097)); lia).
    rewrite Hq, Hr.
    pose proof (cycle_day_mono (r + 28 - 146097) 27).
    pose proof (cycle_day_mono 146069 r).
    change (month_of_cycle_day 27) with 2 in *.
    change (month_of_cycle_day 146069) with 4801 in *. lia.
Qed.

(** Timestamps at least twenty-three months apart are more than 616 days
    apart. *)
Lemma months_apart_days_apart (t1 t2 : Timestamp) :
  Calendar.month_index t1 + 23 <= Calendar.month_index t2 ->
  t1 + 616 * 1440 < t2.
Proof.
  intros Hm. destruct (Z.lt_ge_cases (t1 + 616 * 1440) t2) as [H|H]; [exact H|].
  exfalso. pose proof (month_index_mono _ _ H) as Hmono.
  assert (Hj : forall j : nat,
             Calendar.month_index (t1 + Z.of_nat j * (28 * 1440))
             <= Calendar.month_index t1 + Z.of_nat j).
  { induction j as [|j IH].
    - simpl. rewrite Z.add_0_r. lia.
    - rewrite Nat2Z.inj_succ.
      replace (t1 + Z.succ (Z.of_nat j) * (28 * 1440))
        with (t1 + Z.of_nat j * (28 * 1440) + 28 * 1440) by lia.
      pose proof (month_index_slow (t1 + Z.of_nat j * (28 * 1440))). lia. }
  specialize (Hj 22%nat).
  replace (t1 + Z.of_nat 22 * (28 * 1440)) with (t1 + 616 * 1440) in Hj by lia.
  lia.
Qed.

End CalendarFacts.

(** ** Buckets and their labels *)

Section BucketFacts.

Local Open Scope Z_scope.

Lemma first_day_of_month_cycle (k q : Z) :
  Calendar.first_day_of_month (k + 4800 * q)
  = Calendar.first_day_of_month k + 146097 * q.
Proof.
  unfold Calendar.first_day_of_month, Calendar.days_from_civil. cbv zeta.
  replace (k + 4800 * q) with (k + 400 * q * 12) by ring.
  rewrite Z.div_add, Z_mod_plus_full by lia.
  set (y := k / 12). set (m := k mod 12 + 1).
  set (y0 := if m <=? 2 then y - 1 else y).
  replace (if m <=? 2 then y + 400 * q - 1 else y + 400 * q)
    with (y0 + q * 400) by (unfold y0; destruct (m <=? 2); ring).
  rewrite Z.div_add by lia.
  replace (y0 + q * 400 - (y0 / 400 + q) * 400) with (y0 - y0 / 400 * 400)
    by ring.
  ring.
Qed.

Lemma month_index_cycle_shift (d q : Z) :
  Calendar.month_index (Calendar.minutes_per_day * (d + 146097 * q))
  = Calendar.month_index (Calendar.minutes_per_day * d) + 4800 * q.
Proof.
  rewrite !month_index_cycle. unfold Calendar.day_of, Calendar.minutes_per_day.
  rewrite !(Z.mul_comm 1440), !Z.div_mul by lia.
  replace (d + 146097 * q + 719468) with (d + 719468 + q * 146097) by ring.
  rewrite Z.div_add, Z_mod_plus_full by lia. ring.
Qed.

Lemma month_label_cycle (r q : Z) :
  0 <= r < 4800 ->
  Calendar.month_index (bucket_label FreqM (r + 4800 * q)) = r + 4800 * q.
Proof.
  intros Hr. unfold bucket_label.
  replace (r + 4800 * q + 1) with (r + 1 + 4800 * q) by ring.
  rewrite first_day_of_month_cycle.
  replace (Calendar.first_day_of_month (r + 1) + 146097 * q - 1)
    with (Calendar.first_day_of_month (r + 1) - 1 + 146097 * q) by ring.
  rewrite month_index_cycle_shift. f_equal.
  apply last_day_check_spec.
  apply (all_from_spec _ _ _ cycle_months_checked r). lia.
Qed.

(** The label of a monthly bucket, the last day of the month, falls in that
    month. *)
Lemma month_label_in_month (k : Z) :
  Calendar.month_index (bucket_label FreqM k) = k.
Proof.
  pose proof (Z.div_mod k 4800 ltac:(lia)) as Ek.
  pose proof (month_label_cycle (k mod 4800) (k / 4800)
                (Z.mod_pos_bound k 4800 ltac:(lia))) as H.
  replace (k mod 4800 + 4800 * (k / 4800)) with k in H by lia. exact H.
Qed.

(** A bucket label falls in the bucket it stands for. *)
Lemma bucket_of_label (f : Freq) (k : Z) : bucket f (bucket_label f k) = k.
Proof.
  destruct f; cbn [bucket bucket_label].
  - unfold Calendar.minutes_per_hour. now rewrite Z.mul_comm, Z.div_mul.
  - unfold Calendar.day_of, Calendar.minutes_per_day.
    now rewrite Z.mul_comm, Z.div_mul.
  - unfold Calendar.day_of, Calendar.minutes_per_day.
    rewrite (Z.mul_comm 1440), Z.div_mul by lia.
    replace (7 * k + 3 + 3) with (6 + k * 7) by ring.
    now rewrite Z.div_add.
  - apply month_label_in_month.
Qed.

(** A later timestamp is never in an earlier bucket. *)
Lemma bucket_mono (f : Freq) (t1 t2 : Timestamp) :
  t1 <= t2 -> bucket f t1 <= bucket f t2.
Proof.
  intros Ht. destruct f; cbn [bucket].
  - apply Z.div_le_mono; unfold Calendar.minutes_per_hour; lia.
  - apply Z.div_le_mono; unfold Calendar.minutes_per_day; lia.
  - apply Z.div_le_mono; [lia|].
    unfold Calendar.day_of, Calendar.minutes_per_day.
    pose proof (Z.div_le_mono t1 t2 1440). lia.
  - now apply month_index_mono.
Qed.

Lemma bucket_label_increasing (f : Freq) (k1 k2 : Z) :
  k1 < k2 -> bucket_label f k1 < bucket_label f k2.
Proof.
  intros Hk. destruct (Z.lt_ge_cases (bucket_label f k1) (bucket_label f k2))
    as [H|H]; [exact H|].
  apply (bucket_mono f) in H. rewrite !bucket_of_label in H. lia.
Qed.

Lemma Zlist_min_In (d : Z) (l : list Z) : In (Zlist_min d l) (d :: l).
Proof.
  induction l as [|x l IH]; simpl; [now left|].
  destruct (Z.min_spec x (Zlist_min d l)) as [[_ ->]|[_ ->]].
  - right. now left.
  - destruct IH as [<-|IH]; [now left|right; now right].
Qed.

Lemma Zlist_max_In (d : Z) (l : list Z) : In (Zlist_max d l) (d :: l).
Proof.
  induction l as [|x l IH]; simpl; [now left|].
  destruct (Z.max_spec x (Zlist_max d l)) as [[_ ->]|[_ ->]].
  - destruct IH as [<-|IH]; [now left|right; now right].
  - right. now left.
Qed.

Lemma zrange_In_iff (lo : Z) (n : nat) (k : Z) :
  In k (zrange lo n) <-> lo <= k < lo + Z.of_nat n.
Proof.
  split; [|apply zrange_In].
  unfold zrange. intros H. apply in_map_iff in H.
  destruct H as (i & <- & Hi). apply in_seq in Hi. lia.
Qed.

(** The buckets a resampling lists: those between the earliest and the
    latest bucket that holds a row. *)
Lemma resample_sum_buckets (f : Freq) (rows : list Point) :
  rows <> [] ->
  exists p q lo hi,
    In p rows /\ In q rows /\
    lo = bucket f (fst p) /\ hi = bucket f (fst q) /\
    (forall r, In r rows -> lo <= bucket f (fst r) <= hi) /\
    resample_sum f rows
    = map (fun k => (bucket_label f k, bucket_sum f rows k))
          (zrange lo (Z.to_nat (hi - lo + 1))).
Proof.
  destruct rows as [|r0 rows]; [congruence|]. intros _.
  unfold resample_sum.
  set (all := r0 :: rows).
  set (keys := map (fun p => bucket f (fst p)) all).
  set (lo := Zlist_min (bucket f (fst r0)) keys).
  set (hi := Zlist_max (bucket f (fst r0)) keys).
  assert (Hkey : forall k, In k (bucket f (fst r0) :: keys) ->
                           exists p, In p all /\ k = bucket f (fst p)).
  { intros k [<-|Hk].
    - exists r0. split; [now left|reflexivity].
    - apply in_map_iff in Hk. destruct Hk as (p & <- & Hp). now exists p. }
  destruct (Hkey lo (Zlist_min_In _ _)) as (p & Hp & Elo).
  destruct (Hkey hi (Zlist_max_In _ _)) as (q & Hq & Ehi).
  exists p, q, lo, hi. repeat split; try assumption.
  - apply (proj2 (Zlist_min_le (bucket f (fst r0)) keys)).
    apply in_map_iff. now exists r.
  - apply (proj2 (Zlist_max_ge (bucket f (fst r0)) keys)).
    apply in_map_iff. now exists r.
Qed.

Lemma resample_sum_length (f : Freq) (rows : list Point) (p q : Point) :
  In p rows -> In q rows ->
  Z.of_nat (length (resample_sum f rows))
  >= bucket f (fst q) - bucket f (fst p) + 1.
Proof.
  intros Hp Hq.
  destruct (resample_sum_buckets f rows) as (p' & q' & lo & hi & _ & _ & _ & _ & Hall & ->).
  { intro E. now rewrite E in Hp. }
  rewrite length_map. unfold zrange. rewrite length_map, length_seq.
  pose proof (Hall p Hp). pose proof (Hall q Hq). lia.
Qed.

Lemma resample_sum_length_exact (f : Freq) (rows : list Point) :
  rows <> [] ->
  exists p q,
    In p rows /\ In q rows /\
    Z.of_nat (length (resample_sum f rows))
    = bucket f (fst q) - bucket f (fst p) + 1.
Proof.
  intros Hne.
  destruct (resample_sum_buckets f rows Hne)
    as (p & q & lo & hi & Hp & Hq & -> & -> & Hall & ->).
  exists p, q. split; [exact Hp|]. split; [exact Hq|].
  rewrite length_map. unfold zrange. rewrite length_map, length_seq.
  pose proof (Hall q Hq). lia.
Qed.

End BucketFacts.

(** ** More on aggregation *)

Section AggregationShape.

Local Open Scope Z_scope.

Lemma zrange_cons (lo : Z) (n : nat) :
  zrange lo (S n) = lo :: zrange (lo + 1) n.
Proof.
  unfold zrange. cbn [seq map]. rewrite Z.add_0_r. f_equal.
  rewrite <- seq_shift, map_map. apply map_ext. intros i. lia.
Qed.

Lemma labels_sorted (f : Freq) (lo : Z) (n : nat) :
  StronglySorted Z.lt (map (bucket_label f) (zrange lo n)).
Proof.
  revert lo. induction n as [|n IH]; intros lo; [constructor|].
  rewrite zrange_cons. cbn [map]. constructor; [apply IH|].
  apply Forall_forall. intros t Ht. apply in_map_iff in Ht.
  destruct Ht as (k & <- & Hk). apply zrange_In_iff in Hk.
  apply bucket_label_increasing. lia.
Qed.

(** X14: the points of a resampled series are exactly the buckets from the
    earliest to the latest one that holds a row, each with its label and
    the sum of the rows that fall in it. *)
Theorem resample_sum_points (f : Freq) (rows : list Point)
    (t : Timestamp) (v : Q) :
  In (t, v) (resample_sum f rows) <->
  exists k p q,
    In p rows /\ In q rows /\
    bucket f (fst p) <= k <= bucket f (fst q) /\
    t = bucket_label f k /\ v = bucket_sum f rows k.
Proof.
  split.
  - intros Hin.
    assert (Hne : rows <> []) by (intro E; now rewrite E in Hin).
    destruct (resample_sum_buckets f rows Hne)
      as (p & q & lo & hi & Hp & Hq & -> & -> & Hall & E).
    rewrite E in Hin. apply in_map_iff in Hin.
    destruct Hin as (k & [= <- <-] & Hk). apply zrange_In_iff in Hk.
    exists k, p, q. repeat split; try assumption; lia.
  - intros (k & p & q & Hp & Hq & Hk & -> & ->).
    assert (Hne : rows <> []) by (intro E; now rewrite E in Hp).
    destruct (resample_sum_buckets f rows Hne)
      as (p' & q' & lo & hi & _ & _ & -> & -> & Hall & E).
    rewrite E. apply in_map_iff. exists k. split; [reflexivity|].
    apply zrange_In_iff. pose proof (Hall p Hp). pose proof (Hall q Hq). lia.
Qed.

(** X15: a resampled series has strictly increasing labels, and the value
    at a label is the sum of exactly the rows that share its bucket. *)
Theorem resample_sum_sorted_totals (f : Freq) (rows : list Point) :
  StronglySorted Z.lt (map fst (resample_sum f rows)) /\
  forall t v,
    In (t, v) (resample_sum f rows) ->
    v = Qsum (map snd (filter (fun r => bucket f (fst r) =? bucket f t) rows)).
Proof.
  split.
  - destruct rows as [|r0 rows]; [constructor|].
    destruct (resample_sum_buckets f (r0 :: rows))
      as (p & q & lo & hi & _ & _ & _ & _ & _ & ->); [discriminate|].
    rewrite map_map. cbn [fst].
    rewrite <- (map_map (fun k => k) (bucket_label f)), map_id.
    apply labels_sorted.
  - intros t v Hin.
    assert (Hne : rows <> []) by (intro E; now rewrite E in Hin).
    destruct (resample_sum_buckets f rows Hne)
      as (p & q & lo & hi & _ & _ & _ & _ & _ & E).
    rewrite E in Hin. apply in_map_iff in Hin.
    destruct Hin as (k & [= <- <-] & _).
    now rewrite bucket_of_label.
Qed.

(** Buckets of a finer frequency are at least as far apart as those of a
    coarser one require. *)
Lemma day_gap_hour_gap (t1 t2 : Timestamp) :
  bucket FreqD t1 + 13 <= bucket FreqD t2 ->
  bucket FreqH t1 + 47 <= bucket FreqH t2.
Proof.
  cbn [bucket]. unfold Calendar.day_of, Calendar.minutes_per_day,
    Calendar.minutes_per_hour.
  intros H. Z.div_mod_to_equations. lia.
Qed.

Lemma week_gap_day_gap (t1 t2 : Timestamp) :
  bucket FreqW t1 + 7 <= bucket FreqW t2 ->
  bucket FreqD t1 + 13 <= bucket FreqD t2.
Proof.
  cbn [bucket]. set (d1 := Calendar.day_of t1). set (d2 := Calendar.day_of t2).
  intros H. Z.div_mod_to_equations. lia.
Qed.

Lemma month_gap_week_gap (t1 t2 : Timestamp) :
  bucket FreqM t1 + 23 <= bucket FreqM t2 ->
  bucket FreqW t1 + 7 <= bucket FreqW t2.
Proof.
  cbn [bucket]. intros H. apply months_apart_days_apart in H.
  unfold Calendar.day_of, Calendar.minutes_per_day.
  Z.div_mod_to_equations. lia.
Qed.

Lemma gate_carries_over (f g : Freq) (a b : Z) (rows : list Point) :
  (forall t1 t2, bucket f t1 + a <= bucket f t2 ->
                 bucket g t1 + b <= bucket g t2) ->
  a + 1 <= Z.of_nat (length (resample_sum f rows)) ->
  0 <= a ->
  b + 1 <= Z.of_nat (length (resample_sum g rows)).
Proof.
  intros Hgap Hlen Ha.
  assert (Hne : rows <> []) by (intro E; rewrite E in Hlen; simpl in Hlen; lia).
  destruct (resample_sum_length_exact f rows Hne) as (p & q & Hp & Hq & E).
  pose proof (resample_sum_length g rows p q Hp Hq).
  pose proof (Hgap (fst p) (fst q)). lia.
Qed.

(** The gates are nested: enough monthly buckets means enough weekly
    buckets, enough weekly buckets enough daily ones, and enough daily
    buckets enough hourly ones. *)
Lemma gates_nested (df : DataFrame) :
  ((min_buckets Monthly <= frame_len (resampled df FreqM))%nat ->
   (min_buckets Weekly <= frame_len (resampled df FreqW))%nat) /\
  ((min_buckets Weekly <= frame_len (resampled df FreqW))%nat ->
   (min_buckets Daily <= frame_len (resampled df FreqD))%nat) /\
  ((min_buckets Daily <= frame_len (resampled df FreqD))%nat ->
   (min_buckets Hourly <= frame_len (resampled df FreqH))%nat).
Proof.
  unfold frame_len, resampled. cbn [rows min_buckets]. repeat split; intros H.
  - pose proof (gate_carries_over FreqM FreqW 23 7 (rows df)
                  month_gap_week_gap). lia.
  - pose proof (gate_carries_over FreqW FreqD 7 13 (rows df)
                  week_gap_day_gap). lia.
  - pose proof (gate_carries_over FreqD FreqH 13 47 (rows df)
                  day_gap_hour_gap). lia.
Qed.

End AggregationShape.

(** ** More on the pipeline *)

Section PipelineShape.

Lemma analysis_pass_entry (r : Resolution) (data : DataFrame) :
  exists s,
    analysis_pass r data = inr s /\ entry_for r s /\
    is_analysis s = (min_buckets r <=? frame_len data)%nat.
Proof.
  destruct (Nat.leb_spec (min_buckets r) (frame_len data)) as [Hg|Hg].
  - destruct (analysis_pass_open r data Hg) as (d & hi & lo & _ & _ & _ & H).
    eexists. split; [exact H|]. simpl. auto.
  - eexists. split; [now apply analysis_pass_closed|]. simpl. auto.
Qed.

(** X16: on a datetime-indexed frame the run returns five entries in the
    order hourly, daily, weekly, monthly, seasonal, each the "not enough
    data" line or the titled report of its own resolution; the monthly and
    the seasonal entry are reports together, and a report for a coarser
    resolution comes with a report for every finer one. *)
Theorem analyze_data_entries_nested (df : DataFrame) :
  datetime_index df = true ->
  exists s1 s2 s3 s4 s5,
    analyze_data df = inr [s1; s2; s3; s4; s5] /\
    entry_for Hourly s1 /\ entry_for Daily s2 /\ entry_for Weekly s3 /\
    entry_for Monthly s4 /\ entry_for Seasonal s5 /\
    is_analysis s5 = is_analysis s4 /\
    (is_analysis s4 = true -> is_analysis s3 = true) /\
    (is_analysis s3 = true -> is_analysis s2 = true) /\
    (is_analysis s2 = true -> is_analysis s1 = true).
Proof.
  intros Hd.
  destruct (analysis_pass_entry Hourly (resampled df FreqH)) as (s1 & H1 & E1 & A1).
  destruct (analysis_pass_entry Daily (resampled df FreqD)) as (s2 & H2 & E2 & A2).
  destruct (analysis_pass_entry Weekly (resampled df FreqW)) as (s3 & H3 & E3 & A3).
  destruct (analysis_pass_entry Monthly (resampled df FreqM)) as (s4 & H4 & E4 & A4).
  destruct (analysis_pass_entry Seasonal (resampled df FreqM)) as (s5 & H5 & E5 & A5).
  exists s1, s2, s3, s4, s5.
  split; [now apply analyze_data_passes|].
  repeat (split; [assumption|]).
  destruct (gates_nested df) as (Hmw & Hwd & Hdh).
  rewrite A1, A2, A3, A4, A5. split; [reflexivity|].
  rewrite !Nat.leb_le. auto.
Qed.

Lemma analyze_data_entries_nested_witness :
  exists s1 s2 s3 s4 s5,
    analyze_data thirteen_days_frame = inr [s1; s2; s3; s4; s5] /\
    entry_for Hourly s1 /\ entry_for Daily s2 /\ entry_for Weekly s3 /\
    entry_for Monthly s4 /\ entry_for Seasonal s5 /\
    is_analysis s5 = is_analysis s4 /\
    (is_analysis s4 = true -> is_analysis s3 = true) /\
    (is_analysis s3 = true -> is_analysis s2 = true) /\
    (is_analysis s2 = true -> is_analysis s1 = true).
Proof.
  apply (analyze_data_entries_nested thirteen_days_frame). reflexivity.
Defined.

(** X17: a run fails exactly when the index of the frame is not a datetime
    index, with the error of the guard of [resample_data] and before any
    entry is produced. *)
Theorem analyze_data_fails_iff (df : DataFrame) :
  ((exists e, analyze_data df = inl e) <-> datetime_index df = false) /\
  forall e, analyze_data df = inl e ->
            e = ValueError "The DataFrame index must be a DatetimeIndex.".
Proof.
  destruct (datetime_index df) eqn:Hd.
  - destruct (analysis_pass_total Hourly (resampled df FreqH)) as [s1 H1].
    destruct (analysis_pass_total Daily (resampled df FreqD)) as [s2 H2].
    destruct (analysis_pass_total Weekly (resampled df FreqW)) as [s3 H3].
    destruct (analysis_pass_total Monthly (resampled df FreqM)) as [s4 H4].
    destruct (analysis_pass_total Seasonal (resampled df FreqM)) as [s5 H5].
    rewrite (analyze_data_passes df _ _ _ _ _ Hd H1 H2 H3 H4 H5).
    split; [split; [intros [e H]; discriminate|discriminate]|].
    intros e H. discriminate.
  - unfold analyze_data, resample_data. rewrite Hd. cbn [negb bind].
    split; [split; [reflexivity|]; intros _; eexists; reflexivity|].
    now intros e [= <-].
Qed.

(** X18: when the hourly resampling has fewer than 48 buckets, as for a
    frame without rows, the run is the five "not enough data" lines. *)
Theorem analyze_data_all_closed (df : DataFrame) :
  datetime_index df = true ->
  (frame_len (resampled df FreqH) < 48)%nat ->
  analyze_data df
  = inr (map (fun r => NotEnoughData (not_enough r))
             [Hourly; Daily; Weekly; Monthly; Seasonal]).
Proof.
  intros Hd Hh. destruct (gates_nested df) as (Hmw & Hwd & Hdh).
  cbn [min_buckets] in *.
  apply analyze_data_passes; try exact Hd;
    apply analysis_pass_closed; cbn [min_buckets]; lia.
Qed.

Lemma analyze_data_all_closed_witness :
  analyze_data empty_frame
  = inr (map (fun r => NotEnoughData (not_enough r))
             [Hourly; Daily; Weekly; Monthly; Seasonal]).
Proof.
  apply (analyze_data_all_closed empty_frame).
  - reflexivity.
  - vm_compute. lia.
Defined.

End PipelineShape.

(** ** Low and high sales behind the gates *)

Section PipelineExtremes.

Lemma quarter_floor (n : nat) :
  Qfloor (inject_Z (Z.of_nat n) * default_threshold) = (Z.of_nat n / 4)%Z.
Proof.
  unfold default_threshold, Qfloor, Qmult, inject_Z. cbn [Qnum Qden].
  now rewrite Z.mul_1_r.
Qed.

(** X20: in every report a pass produces, low and high sales hold the same
    number of points, a quarter of the buckets rounded down, which is at
    least two and at most half of them: past the gates the slices never
    degenerate. *)
Theorem report_extremes_sizes (r : Resolution) (data : DataFrame)
    (rep : Report) :
  analysis_pass r data = inr (Analysis rep) ->
  length (low_sales rep) = (frame_len data / 4)%nat /\
  length (high_sales rep) = (frame_len data / 4)%nat /\
  (2 <= frame_len data / 4)%nat /\
  (2 * (frame_len data / 4) <= frame_len data)%nat.
Proof.
  intros H.
  destruct (Nat.le_gt_cases (min_buckets r) (frame_len data)) as [Hg|Hg].
  2:{ rewrite (analysis_pass_closed r data Hg) in H. discriminate. }
  destruct (analysis_pass_open r data Hg) as (d & hi & lo & _ & _ & _ & Hp).
  rewrite Hp in H. injection H as <-. cbn [low_sales high_sales].
  assert (H8 : (8 <= frame_len data)%nat) by (destruct r; simpl in Hg; lia).
  unfold frame_len in *.
  pose proof (Nat.div_mod_eq (length (rows data)) 4) as Hd4.
  pose proof (Nat.mod_upper_bound (length (rows data)) 4 ltac:(lia)) as Hm4.
  assert (Hq : Qfloor (inject_Z (Z.of_nat (length (rows data)))
                       * default_threshold)
               = Z.of_nat (length (rows data) / 4)).
  { rewrite quarter_floor. now rewrite Nat2Z.inj_div. }
  destruct (identify_low_high_sales_floor (rows data) default_threshold)
    as (_ & Hl & Hh).
  - reflexivity.
  - unfold default_threshold. unfold Qle. simpl. lia.
  - rewrite Hq. lia.
  - cbv zeta in Hl, Hh. rewrite Hq, Nat2Z.id in Hl, Hh.
    repeat split; try assumption; lia.
Qed.

Lemma report_extremes_sizes_witness :
  length (low_sales two_weeks_report) = (frame_len two_weeks_frame / 4)%nat /\
  length (high_sales two_weeks_report) = (frame_len two_weeks_frame / 4)%nat /\
  (2 <= frame_len two_weeks_frame / 4)%nat /\
  (2 * (frame_len two_weeks_frame / 4) <= frame_len two_weeks_frame)%nat.
Proof.
  apply (report_extremes_sizes Daily two_weeks_frame two_weeks_report).
  vm_compute. reflexivity.
Defined.

End PipelineExtremes.

(** ** A flat series *)

Section FlatSeries.

Import Statsmodels.

Lemma Qsum_cons (v : Q) (l : list Q) : Qsum (v :: l) = v + Qsum l.
Proof. reflexivity. Qed.

Lemma Qsum_app (a b : list Q) : Qsum (a ++ b) == Qsum a + Qsum b.
Proof.
  induction a as [|v a IH].
  - change (Qsum b == 0 + Qsum b). ring.
  - change (v + Qsum (a ++ b) == v + Qsum a + Qsum b). rewrite IH. ring.
Qed.

Lemma Qsum_rev (l : list Q) : Qsum (rev l) == Qsum l.
Proof.
  induction l as [|v l IH]; [reflexivity|].
  cbn [rev]. rewrite Qsum_app, IH, !Qsum_cons.
  change (Qsum []) with 0. ring.
Qed.

Lemma Qsum_repeat (v : Q) (n : nat) :
  Qsum (repeat v n) == inject_Z (Z.of_nat n) * v.
Proof.
  induction n as [|n IH].
  - change (0 == inject_Z 0 * v). ring.
  - cbn [repeat]. rewrite Qsum_cons, IH.
    rewrite Nat2Z.inj_succ. unfold Z.succ. rewrite inject_Z_plus. ring.
Qed.

Lemma Qsum_scaled (p : Q) (l : list Q) :
  Qsum (map (fun w => w / p) l) == Qsum l / p.
Proof.
  induction l as [|v l IH].
  - change (0 == 0 / p). unfold Qdiv. ring.
  - cbn [map]. rewrite !Qsum_cons, IH. unfold Qdiv. ring.
Qed.

Lemma Qsum_all_zero (l : list Q) :
  Forall (fun v => v == 0) l -> Qsum l == 0.
Proof.
  induction 1 as [|v l Hv _ IH]; [reflexivity|].
  rewrite Qsum_cons, Hv, IH. ring.
Qed.

Lemma period_nonzero (period : nat) :
  (1 <= period)%nat -> ~ inject_Z (Z.of_nat period) == 0.
Proof. intros Hp H0. unfold Qeq in H0. simpl in H0. lia. Qed.

(** The weights of the moving average add up to one. *)
Lemma filt_sum (period : nat) : (1 <= period)%nat -> Qsum (filt period) == 1.
Proof.
  intros Hp. pose proof (period_nonzero period Hp) as Hnz. unfold filt.
  destruct (Nat.even period).
  - rewrite Qsum_scaled, Qsum_cons, Qsum_app, Qsum_repeat, Qsum_cons.
    change (Qsum []) with 0.
    replace (Z.of_nat (period - 1)) with (Z.of_nat period - 1)%Z by lia.
    unfold Zminus. rewrite inject_Z_plus. change (inject_Z (- (1))) with (- (1)).
    field. exact Hnz.
  - rewrite Qsum_repeat. field. exact Hnz.
Qed.

Lemma Qdot_flat (c : Q) (w l : list Q) :
  length l = length w -> Forall (fun v => v == c) l ->
  Qdot w l == c * Qsum w.
Proof.
  unfold Qdot. revert l. induction w as [|a w IH]; intros [|v l];
    try discriminate; intros Hlen Hall.
  - change (0 == c * 0). ring.
  - inversion Hall as [|? ? Hv Hl]; subst. cbn [zip_with].
    rewrite !Qsum_cons, (IH l) by (auto; simpl in Hlen; congruence).
    rewrite Hv. ring.
Qed.

Lemma In_stride {A : Type} (i period : nat) (l : list A) (a : A) :
  In a (stride i period l) -> In a l.
Proof.
  unfold stride. intros H. apply in_map_iff in H.
  destruct H as ([j b] & <- & Hin). apply filter_In in Hin.
  destruct Hin as [Hin _]. now apply in_combine_r in Hin.
Qed.

Lemma In_dropna_values (l : list (option Q)) (v : Q) :
  In v (dropna_values l) -> In (Some v) l.
Proof.
  induction l as [|[w|] l IH]; simpl; [contradiction| |].
  - intros [->|H]; [now left|right; auto].
  - intros H. right. auto.
Qed.

Lemma In_zip_with {A B C : Type} (g : A -> B -> C) (l1 : list A)
    (l2 : list B) (c : C) :
  In c (zip_with g l1 l2) -> exists a b, In a l1 /\ In b l2 /\ c = g a b.
Proof.
  revert l2. induction l1 as [|a l1 IH]; intros [|b l2]; simpl;
    try contradiction.
  intros [<-|H].
  - exists a, b. auto.
  - destruct (IH l2 H) as (a' & b' & Ha & Hb & E). exists a', b'. auto.
Qed.

Lemma In_tile {A : Type} (l : list A) (k : nat) (a : A) :
  In a (tile l k) -> In a l.
Proof.
  unfold tile. induction k as [|k IH]; simpl; [contradiction|].
  intros H. apply in_app_or in H. destruct H; auto.
Qed.

Lemma In_convolve_valid (x w : list Q) (t : Q) :
  In t (convolve_valid x w) ->
  exists win, length win = length w /\ (forall v, In v win -> In v x) /\
              t = Qdot (rev w) win.
Proof.
  unfold convolve_valid.
  destruct (Nat.leb_spec (length w) (length x)) as [Hle|Hgt];
    [|contradiction].
  intros H. apply in_map_iff in H. destruct H as (j & <- & Hj).
  apply in_seq in Hj.
  exists (firstn (length w) (skipn j x)). split; [|split; [|reflexivity]].
  - rewrite length_firstn, length_skipn. lia.
  - intros v Hv. apply In_firstn_list, In_skipn_list in Hv. exact Hv.
Qed.

(** X19: a series whose values are all equal to [c] decomposes, under the
    additive model, into a trend equal to [c] wherever it is defined, a
    seasonal component equal to zero and a residual equal to zero wherever
    it is defined. *)
Theorem flat_series_decomposition (x : Series) (period : option nat)
    (c : Q) (d : DecomposeResult) :
  period <> Some 0%nat ->
  Forall (fun p => snd p == c) (points x) ->
  decompose_series x Additive period = inr d ->
  Forall (fun p => missing_or c (snd p)) (trend d) /\
  Forall (fun p => snd p == 0) (seasonal d) /\
  Forall (fun p => missing_or 0 (snd p)) (resid d).
Proof.
  intros Hp0 Hflat. rewrite decompose_series_effective.
  set (p := effective_period x period).
  assert (Hp : (1 <= p)%nat).
  { unfold p. destruct period as [[|q]|]; simpl; [congruence|lia|].
    destruct (freq x) as [[]|]; lia. }
  unfold seasonal_decompose. cbv beta iota zeta.
  set (xs := map snd (points x)).
  destruct (_ <? _)%nat; [discriminate|].
  destruct (Nat.eqb_spec p 0) as [Hz|_]; [lia|].
  set (tr := convolution_filter xs (filt p)).
  set (detrended := zip_with (fun v t => lift2 Qminus (Some v) t) xs tr).
  set (pa0 := seasonal_mean detrended p).
  set (pa := map (fun a => a - Qmean pa0) pa0).
  set (seas := firstn (length xs) (tile pa (length xs / p + 1))).
  intros H. injection H as <-. cbn [trend seasonal resid].
  assert (Hxs : forall v, In v xs -> v == c).
  { intros v Hv. apply in_map_iff in Hv. destruct Hv as (q & <- & Hq).
    rewrite Forall_forall in Hflat. now apply Hflat. }
  assert (Htr : forall o, In o tr -> missing_or c o).
  { intros o Ho. unfold tr, convolution_filter in Ho.
    apply in_app_or in Ho. destruct Ho as [Ho|Ho];
      [apply repeat_spec in Ho; now subst|].
    apply in_app_or in Ho. destruct Ho as [Ho|Ho];
      [|apply repeat_spec in Ho; now subst].
    apply in_map_iff in Ho. destruct Ho as (t & <- & Ht).
    apply In_convolve_valid in Ht. destruct Ht as (win & Hlen & Hwin & ->).
    simpl. rewrite (Qdot_flat c).
    - rewrite Qsum_rev, filt_sum by exact Hp. ring.
    - now rewrite length_rev.
    - apply Forall_forall. intros v Hv. apply Hxs, Hwin, Hv. }
  assert (Hdet : forall o, In o detrended -> missing_or 0 o).
  { intros o Ho. apply In_zip_with in Ho.
    destruct Ho as (v & t & Hv & Ht & ->).
    specialize (Htr t Ht). destruct t as [t|]; simpl; [|exact I].
    simpl in Htr. rewrite (Hxs v Hv), Htr. ring. }
  assert (Hpa0 : forall a, In a pa0 -> a == 0).
  { intros a Ha. unfold pa0, seasonal_mean in Ha. apply in_map_iff in Ha.
    destruct Ha as (i & <- & _). unfold nanmean, Qmean.
    rewrite Qsum_all_zero; [unfold Qdiv; ring|].
    apply Forall_forall. intros v Hv.
    apply In_dropna_values, In_stride in Hv. exact (Hdet _ Hv). }
  assert (Hmean : Qmean pa0 == 0).
  { unfold Qmean. rewrite Qsum_all_zero; [unfold Qdiv; ring|].
    now apply Forall_forall. }
  assert (Hseas : forall s, In s seas -> s == 0).
  { intros s Hs. unfold seas in Hs. apply In_firstn_list, In_tile in Hs.
    unfold pa in Hs. apply in_map_iff in Hs. destruct Hs as (a & <- & Ha).
    rewrite (Hpa0 a Ha), Hmean. ring. }
  split; [|split]; apply Forall_forall; intros [ts o] Hin;
    apply in_combine_r in Hin; cbn [snd].
  - now apply Htr.
  - now apply Hseas.
  - apply In_zip_with in Hin. destruct Hin as (dv & s & Hdv & Hs & ->).
    specialize (Hdet dv Hdv). destruct dv as [dv|]; simpl; [|exact I].
    simpl in Hdet. rewrite Hdet, (Hseas s Hs). ring.
Qed.

Lemma flat_series_decomposition_witness :
  Forall (fun p => missing_or 5 (snd p)) (trend flat_decomposition) /\
  Forall (fun p => snd p == 0) (seasonal flat_decomposition) /\
  Forall (fun p => missing_or 0 (snd p)) (resid flat_decomposition).
Proof.
  apply (flat_series_decomposition flat_two_weeks (Some 7%nat) 5).
  - discriminate.
  - unfold flat_two_weeks. cbn [points]. apply Forall_forall.
    intros q Hq. apply in_map_iff in Hq. destruct Hq as (i & <- & _).
    reflexivity.
  - reflexivity.
Defined.

End FlatSeries.

(** ** Order within the slices *)

Section SlicesSorted.

Lemma sorted_app_parts (l1 l2 : list Point) :
  StronglySorted value_le (l1 ++ l2) ->
  StronglySorted value_le l1 /\ StronglySorted value_le l2.
Proof.
  induction l1 as [|a l1 IH]; simpl; intros H; [split; [constructor|exact H]|].
  apply StronglySorted_inv in H. destruct H as [Hs Ha].
  destruct (IH Hs) as [H1 H2]. split; [|exact H2].
  constructor; [exact H1|]. apply Forall_app in Ha. tauto.
Qed.

Lemma sort_values_strongly_sorted (l : list Point) :
  StronglySorted value_le (sort_values l).
Proof.
  apply Sorted_StronglySorted;
    [intros a b c; unfold value_le; apply Qle_trans|].
  apply Sorted_LocallySorted_iff, sort_values_sorted.
Qed.

(** X21: whatever the threshold, each of the two slices is in ascending
    order of value. *)
Theorem low_high_sales_sorted (series : list Point) (threshold : Q) :
  StronglySorted value_le (fst (identify_low_high_sales series threshold)) /\
  StronglySorted value_le (snd (identify_low_high_sales series threshold)).
Proof.
  rewrite identify_low_high_sales_cut. cbn [fst snd].
  unfold Py.slice_to, Py.slice_from.
  pose proof (sort_values_strongly_sorted series) as Hs. split.
  - rewrite <- (firstn_skipn
                  (Py.slice_index (length (sort_values series))
                     (cut series threshold)) (sort_values series)) in Hs.
    now apply sorted_app_parts in Hs.
  - rewrite <- (firstn_skipn
                  (Py.slice_index (length (sort_values series))
                     (- cut series threshold)) (sort_values series)) in Hs.
    now apply sorted_app_parts in Hs.
Qed.

End SlicesSorted.
